(** * AstriaGraph: the catalogue conversion scripts

    A shallow embedding of [scripts/convert_intact_to_tsv.mjs] and
    [scripts/fetch_celestrak.mjs], and the properties of the
    reconciliation pipeline they implement.

    Conventions of the embedding.
    - A JavaScript string is a [string]; each [ascii] stands for one
      UTF-16 code unit, so the development covers text whose code units
      lie in the Latin-1 range.
    - A JavaScript Number is a binary64 [float] (Rocq's primitive floats).
    - A plain object used as a record ([rec = {}], a parsed JSON object)
      is a [gmap] from property names to values; the scripts only read
      properties that [Object.prototype] does not define, so the
      prototype chain is never consulted.
    - A [Map] is an insertion-ordered association list ([JsMap]).
    - Builtins whose result the language standard leaves to the host
      ([Date.parse] outside the ISO format, [Math.cbrt], the Unicode
      tables of [toUpperCase]) are Section variables. *)

From Stdlib Require Import ZArith Floats Ascii String List Lia Bool.
From stdpp Require Import base option list strings gmap.

Local Open Scope string_scope.
Local Open Scope Z_scope.
Local Open Scope list_scope.

(** ** The host language *)

Module JS.

(** *** Numbers *)

(** [Number.isFinite] on a value that is already a Number. *)
Definition Number_isFinite (x : float) : bool := PrimFloat.is_finite x.

(** [a > b] on Numbers is [b < a]. *)
Definition gt (a b : float) : bool := (b <? a)%float.

(** [Math.PI]. *)
Definition Math_PI : float := 0x1.921fb54442d18p+1%float.

(** The Number nearest to [m * 2^e] (ties to even) for [0 <= m],
    negated when [neg]; a zero mantissa gives the zero of sign [neg]. *)
Definition float_of_scaled (neg : bool) (m e : Z) : float :=
  SF2Prim (binary_normalize prec emax (if neg then - m else m) e neg).

(** The Number nearest to the decimal [m * 10^e10], for [0 <= m]. When
    the exponent is negative the quotient is taken with more than 64
    significant bits and a sticky bit, which rounds as the exact value
    does. *)
Definition float_of_decimal (neg : bool) (m e10 : Z) : float :=
  if m =? 0 then (if neg then PrimFloat.neg_zero else PrimFloat.zero)
  else if 0 <=? e10 then float_of_scaled neg (m * 10 ^ e10) 0
  else
    let d := 10 ^ (- e10) in
    let s := Z.max 0 (Z.log2 d - Z.log2 m + 70) in
    let q := (m * 2 ^ s) / d in
    let r := (m * 2 ^ s) mod d in
    float_of_scaled neg (2 * q + (if r =? 0 then 0 else 1)) (- (s + 1)).

(** *** Strings *)

Definition code (c : ascii) : Z := Z.of_N (N_of_ascii c).

(** WhiteSpace and LineTerminator code units below U+0100. *)
Definition is_space (c : ascii) : bool :=
  let n := code c in
  (n =? 9) || (n =? 10) || (n =? 11) || (n =? 12) || (n =? 13)
  || (n =? 32) || (n =? 160).

Fixpoint trimStart (s : string) : string :=
  match s with
  | String c s' => if is_space c then trimStart s' else s
  | EmptyString => EmptyString
  end.

Fixpoint trimEnd (s : string) : string :=
  match s with
  | String c s' =>
      match trimEnd s' with
      | EmptyString => if is_space c then EmptyString else String c EmptyString
      | t => String c t
      end
  | EmptyString => EmptyString
  end.

(** [String.prototype.trim]. *)
Definition trim (s : string) : string := trimEnd (trimStart s).

(** [s.length > 0]. *)
Definition nonempty (s : string) : bool :=
  match s with EmptyString => false | String _ _ => true end.

(** [s.split(/\t/)]: the pieces between tab characters. *)
Fixpoint split_tab (s : string) : list string :=
  match s with
  | EmptyString => [EmptyString]
  | String c s' =>
      if (code c =? 9) then EmptyString :: split_tab s'
      else match split_tab s' with
           | p :: ps => String c p :: ps
           | [] => [String c EmptyString]
           end
  end.

(** [s.split(/\r?\n/)]: a line ends at a line feed, and a carriage
    return directly before the line feed belongs to the separator. *)
Fixpoint split_lines (s : string) : list string :=
  match s with
  | EmptyString => [EmptyString]
  | String c s' =>
      if (code c =? 10) then EmptyString :: split_lines s'
      else
        match s' with
        | String c' s'' =>
            if (code c =? 13) && (code c' =? 10) then EmptyString :: split_lines s''
            else match split_lines s' with
                 | p :: ps => String c p :: ps
                 | [] => [String c EmptyString]
                 end
        | EmptyString => [String c EmptyString]
        end
  end.

(** [parts.join(sep)]. *)
Fixpoint join (sep : string) (parts : list string) : string :=
  match parts with
  | [] => EmptyString
  | [p] => p
  | p :: ps => (p ++ sep ++ join sep ps)%string
  end.

(** The first position at or after [i] where [pat] occurs in the text
    whose suffix from [i] is [text]. *)
Fixpoint indexOf_at (pat text : string) (i : nat) : option nat :=
  if String.prefix pat text then Some i
  else match text with
       | EmptyString => None
       | String _ text' => indexOf_at pat text' (S i)
       end.

Fixpoint drop_string (n : nat) (s : string) : string :=
  match n, s with
  | O, _ => s
  | S n', String _ s' => drop_string n' s'
  | S _, EmptyString => EmptyString
  end.

Fixpoint take_string (n : nat) (s : string) : string :=
  match n, s with
  | O, _ => EmptyString
  | S n', String c s' => String c (take_string n' s')
  | S _, EmptyString => EmptyString
  end.

(** [text.indexOf(pat, from)] for [from <= text.length], [None] for -1. *)
Definition indexOf (pat text : string) (from : nat) : option nat :=
  indexOf_at pat (drop_string from text) from.

(** [text.slice(from, to)] for [0 <= from], [0 <= to]. *)
Definition slice (text : string) (from to : nat) : string :=
  take_string (to - from)%nat (drop_string from text).

(** [s.includes(pat)]. *)
Definition includes (pat s : string) : bool :=
  match indexOf pat s 0 with Some _ => true | None => false end.

(** *** String to Number

    [StringToNumber] of ECMA-262 (7.1.4.1.1): surrounding white space is
    ignored, the empty string is [+0], a literal that does not match
    [StrNumericLiteral] is [NaN], and a decimal literal denotes the
    Number nearest to its mathematical value. *)

Definition is_digit (c : ascii) : bool := (48 <=? code c) && (code c <=? 57).

Definition digit_value (c : ascii) : Z := code c - 48.

Definition hex_value (c : ascii) : option Z :=
  let n := code c in
  if (48 <=? n) && (n <=? 57) then Some (n - 48)
  else if (65 <=? n) && (n <=? 70) then Some (n - 55)
  else if (97 <=? n) && (n <=? 102) then Some (n - 87)
  else None.

(** The longest prefix of decimal digits, and what follows it. *)
Fixpoint span_digits (s : string) : string * string :=
  match s with
  | String c s' =>
      if is_digit c then let '(d, r) := span_digits s' in (String c d, r)
      else (EmptyString, s)
  | EmptyString => (EmptyString, EmptyString)
  end.

Fixpoint digits_value (acc : Z) (s : string) : Z :=
  match s with
  | String c s' => digits_value (10 * acc + digit_value c) s'
  | EmptyString => acc
  end.

(** The value of a non-empty string of digits in [radix], if it is one. *)
Fixpoint radix_value (radix : Z) (acc : Z) (s : string) : option Z :=
  match s with
  | String c s' =>
      match hex_value c with
      | Some v => if v <? radix then radix_value radix (radix * acc + v) s' else None
      | None => None
      end
  | EmptyString => Some acc
  end.

Definition nonDecimalLiteral (radix : Z) (ds : string) : float :=
  match ds with
  | EmptyString => PrimFloat.nan
  | _ => match radix_value radix 0 ds with
         | Some v => float_of_scaled false v 0
         | None => PrimFloat.nan
         end
  end.

(** [ExponentPart], when it is the whole of [s]. *)
Definition exponentPart (s : string) : option Z :=
  match s with
  | EmptyString => Some 0
  | String c s' =>
      if (code c =? 101) || (code c =? 69) then
        let '(neg, ds) :=
          match s' with
          | String c' s'' =>
              if code c' =? 45 then (true, s'')
              else if code c' =? 43 then (false, s'')
              else (false, s')
          | EmptyString => (false, s')
          end in
        match span_digits ds with
        | (String _ _ as ed, EmptyString) =>
            Some (if neg then - digits_value 0 ed else digits_value 0 ed)
        | _ => None
        end
      else None
  end.

Definition unsignedDecimalLiteral (neg : bool) (u : string) : float :=
  if String.eqb u "Infinity" then
    (if neg then PrimFloat.neg_infinity else PrimFloat.infinity)
  else
    let '(ip, r1) := span_digits u in
    let '(fp, r2) :=
      match r1 with
      | String c r1' => if code c =? 46 then span_digits r1' else (EmptyString, r1)
      | EmptyString => (EmptyString, r1)
      end in
    if nonempty ip || nonempty fp then
      match exponentPart r2 with
      | Some e =>
          float_of_decimal neg (digits_value 0 (ip ++ fp)%string)
                           (e - Z.of_nat (String.length fp))
      | None => PrimFloat.nan
      end
    else PrimFloat.nan.

Definition StringToNumber (str : string) : float :=
  match trim str with
  | EmptyString => PrimFloat.zero
  | String c0 (String c1 ds as t') as t =>
      if (code c0 =? 48) && ((code c1 =? 120) || (code c1 =? 88)) then nonDecimalLiteral 16 ds
      else if (code c0 =? 48) && ((code c1 =? 111) || (code c1 =? 79)) then nonDecimalLiteral 8 ds
      else if (code c0 =? 48) && ((code c1 =? 98) || (code c1 =? 66)) then nonDecimalLiteral 2 ds
      else if code c0 =? 45 then unsignedDecimalLiteral true t'
      else if code c0 =? 43 then unsignedDecimalLiteral false t'
      else unsignedDecimalLiteral false t
  | String c0 EmptyString as t => unsignedDecimalLiteral false t
  end.

(** *** Number to String

    [Number::toString] of ECMA-262 (6.1.6.1.20) in radix 10. For a
    positive finite [x] it takes integers [n], [k], [s] with [k >= 1],
    [10^(k-1) <= s < 10^k], [s * 10^(n-k)] rounding to [x] and [k] as
    small as possible (of several [s], the one nearest to [x]), and
    formats them: plain decimal when [-6 < n <= 21], with an exponent
    otherwise. *)

(** Exact positive rationals [num / den], [den > 0]. *)
Record rat := Rat { num : Z; den : Z }.

Definition rat_pow (b e : Z) : rat :=
  if 0 <=? e then Rat (b ^ e) 1 else Rat 1 (b ^ (- e)).

Definition rat_mul (a b : rat) : rat := Rat (num a * num b) (den a * den b).
Definition rat_ltb (a b : rat) : bool := num a * den b <? num b * den a.
Definition rat_leb (a b : rat) : bool := num a * den b <=? num b * den a.
Definition rat_floor (a : rat) : Z := num a / den a.
Definition rat_div (a b : rat) : rat := Rat (num a * den b) (den a * num b).
Definition rat_dist (a b : rat) : rat :=
  Rat (Z.abs (num a * den b - num b * den a)) (den a * den b).

(** The reals that round to the Number [m * 2^e]: the open interval
    between the midpoints to its neighbours, closed when [m] is even. *)
Definition rounds_to (m e : Z) (v : rat) : bool :=
  let hi := rat_mul (Rat (2 * m + 1) 1) (rat_pow 2 (e - 1)) in
  let lo :=
    if (m =? 2 ^ 52) && (-1074 <? e)
    then rat_mul (Rat (4 * m - 1) 1) (rat_pow 2 (e - 2))
    else rat_mul (Rat (2 * m - 1) 1) (rat_pow 2 (e - 1)) in
  if Z.even m then rat_leb lo v && rat_leb v hi
  else rat_ltb lo v && rat_ltb v hi.

(** The least [n >= from] with [x < 10^n]. *)
Fixpoint decimal_exponent (fuel : nat) (x : rat) (from : Z) : Z :=
  match fuel with
  | O => from
  | S fuel' =>
      if rat_ltb x (rat_pow 10 from) then from
      else decimal_exponent fuel' x (from + 1)
  end.

(** The candidates [(n, s)] with [k] digits that round to [m * 2^e]. *)
Definition candidates (m e n0 k : Z) : list (Z * Z) :=
  let x := rat_mul (Rat m 1) (rat_pow 2 e) in
  List.filter (fun '(n, s) =>
                 (10 ^ (k - 1) <=? s) && (s <? 10 ^ k)
                 && rounds_to m e (rat_mul (Rat s 1) (rat_pow 10 (n - k))))
    (flat_map (fun n =>
                 let s := rat_floor (rat_div x (rat_pow 10 (n - k))) in
                 [(n, s); (n, s + 1)])
              [n0; n0 + 1]).

(** Of several candidates, the one nearest to [x]; an even [s] on a tie. *)
Definition nearest (x : rat) (k : Z) (cs : list (Z * Z)) : option (Z * Z) :=
  let dist '(n, s) := rat_dist (rat_mul (Rat s 1) (rat_pow 10 (n - k))) x in
  fold_left (fun best c =>
               match best with
               | None => Some c
               | Some b =>
                   if rat_ltb (dist c) (dist b) then Some c
                   else if rat_ltb (dist b) (dist c) then Some b
                   else if Z.even (snd c) then Some c else Some b
               end) cs None.

Fixpoint shortest (fuel : nat) (m e n0 k : Z) : Z * Z * Z :=
  match fuel with
  | O => (n0, k, 0)
  | S fuel' =>
      match nearest (rat_mul (Rat m 1) (rat_pow 2 e)) k (candidates m e n0 k) with
      | Some (n, s) => (n, k, s)
      | None => shortest fuel' m e n0 (k + 1)
      end
  end.

(** [(n, k, s)] for the positive finite Number [m * 2^e]. The search
    for [n] starts below it: with [l] the binary logarithm of the
    Number, [10^(l * 0.30102) <= 2^l] when [0 <= l] and
    [10^(l * 0.30103) <= 2^l] when [l < 0]. *)
Definition decimal_digits (m e : Z) : Z * Z * Z :=
  let x := rat_mul (Rat m 1) (rat_pow 2 e) in
  let l := Z.log2 m + e in
  let from := if 0 <=? l then l * 30102 / 100000 else l * 30103 / 100000 in
  shortest 17 m e (decimal_exponent 8 x from) 1.

Definition digit_char (d : Z) : ascii := ascii_of_N (Z.to_N (48 + d mod 10)).

Fixpoint decimal_go (fuel : nat) (z : Z) (acc : string) : string :=
  match fuel with
  | O => acc
  | S fuel' =>
      let acc' := String (digit_char z) acc in
      if z <? 10 then acc' else decimal_go fuel' (z / 10) acc'
  end.

(** The decimal representation of [z >= 0]. *)
Definition decimal (z : Z) : string :=
  decimal_go (S (Z.to_nat (Z.log2 z))) z EmptyString.

Fixpoint zeros (n : nat) : string :=
  match n with O => EmptyString | S n' => String "0" (zeros n') end.

(** Steps 6 to 10 of [Number::toString] on the digits [ds] of [s]. *)
Definition format_digits (n k : Z) (ds : string) : string :=
  if (k <=? n) && (n <=? 21) then
    (ds ++ zeros (Z.to_nat (n - k)))%string
  else if (0 <? n) && (n <=? 21) then
    (take_string (Z.to_nat n) ds ++ "." ++ drop_string (Z.to_nat n) ds)%string
  else if (-6 <? n) && (n <=? 0) then
    ("0." ++ zeros (Z.to_nat (- n)) ++ ds)%string
  else
    let sg := if 0 <=? n - 1 then "+" else "-" in
    let ex := (sg ++ decimal (Z.abs (n - 1)))%string in
    if k =? 1 then (ds ++ "e" ++ ex)%string
    else (take_string 1 ds ++ "." ++ drop_string 1 ds ++ "e" ++ ex)%string.

Definition NumberToString (x : float) : string :=
  match Prim2SF x with
  | S754_nan => "NaN"
  | S754_zero _ => "0"
  | S754_infinity sg => if sg then "-Infinity" else "Infinity"
  | S754_finite sg m e =>
      let '(n, k, s) := decimal_digits (Zpos m) e in
      ((if sg then "-" else "") ++ format_digits n k (decimal s))%string
  end.

(** *** Values

    The primitive values that a parsed JSON document yields for a
    property (a missing property reads as [undefined]). *)

Inductive value :=
| VUndefined
| VNull
| VBool (b : bool)
| VNum (x : float)
| VStr (s : string).

(** [Number(v)]. *)
Definition ToNumber (v : value) : float :=
  match v with
  | VUndefined => PrimFloat.nan
  | VNull => PrimFloat.zero
  | VBool b => if b then PrimFloat.one else PrimFloat.zero
  | VNum x => x
  | VStr s => StringToNumber s
  end.

(** [String(v)]. *)
Definition ToString (v : value) : string :=
  match v with
  | VUndefined => "undefined"
  | VNull => "null"
  | VBool b => if b then "true" else "false"
  | VNum x => NumberToString x
  | VStr s => s
  end.

(** Truthiness: [undefined], [null], [false], zeros, [NaN] and the
    empty string are falsy. *)
Definition ToBoolean (v : value) : bool :=
  match v with
  | VUndefined | VNull => false
  | VBool b => b
  | VNum x => negb (PrimFloat.is_zero x || PrimFloat.is_nan x)
  | VStr s => nonempty s
  end.

(** [a || b]. *)
Definition or_else (a b : value) : value := if ToBoolean a then a else b.

(** [a ?? b]. *)
Definition nullish (a b : value) : value :=
  match a with VUndefined | VNull => b | _ => a end.

(** *** Instances of the host-defined builtins

    The theorems below hold for every [Date.parse] and every
    [toUpperCase]; these two instances serve to evaluate the scripts on
    concrete inputs. *)

Definition days_from_civil (y m d : Z) : Z :=
  let y' := if m <=? 2 then y - 1 else y in
  let era := y' / 400 in
  let yoe := y' - era * 400 in
  let doy := (153 * (if 2 <? m then m - 3 else m + 9) + 2) / 5 + d - 1 in
  let doe := yoe * 365 + yoe / 4 - yoe / 100 + doy in
  era * 146097 + doe - 719468.

Definition days_in_month (y m : Z) : Z :=
  if m =? 2 then
    (if ((y mod 4 =? 0) && negb (y mod 100 =? 0)) || (y mod 400 =? 0) then 29 else 28)
  else if (m =? 4) || (m =? 6) || (m =? 9) || (m =? 11) then 30 else 31.

(** A [Date.parse] that reads the ISO date form [YYYY-MM-DD] (UTC
    midnight, in milliseconds since the epoch) and nothing else. *)
Definition Date_parse_ymd (str : string) : float :=
  match str with
  | String y1 (String y2 (String y3 (String y4 (String h1
      (String m1 (String m2 (String h2 (String d1 (String d2 EmptyString))))))))) =>
      if forallb is_digit [y1; y2; y3; y4; m1; m2; d1; d2]
         && (code h1 =? 45) && (code h2 =? 45) then
        let y := digits_value 0 (String y1 (String y2 (String y3 (String y4 EmptyString)))) in
        let m := digits_value 0 (String m1 (String m2 EmptyString)) in
        let d := digits_value 0 (String d1 (String d2 EmptyString)) in
        if (1 <=? m) && (m <=? 12) && (1 <=? d) && (d <=? days_in_month y m) then
          float_of_scaled false (days_from_civil y m d * 86400000) 0
        else PrimFloat.nan
      else PrimFloat.nan
  | _ => PrimFloat.nan
  end.

(** [toUpperCase] on the letters [a] to [z]; other code units stay. *)
Fixpoint toUpperCase_ascii (str : string) : string :=
  match str with
  | String c str' =>
      String (if (97 <=? code c) && (code c <=? 122)
              then ascii_of_N (Z.to_N (code c - 32)) else c)
             (toUpperCase_ascii str')
  | EmptyString => EmptyString
  end.

End JS.

(** ** [Map]: an insertion-ordered map with string keys

    [set] on a key that is present replaces the value where it stands;
    on a new key it appends the entry, so iteration follows the order in
    which keys were first set. *)

Module JsMap.
Section Map.
Context {V : Type}.

Fixpoint get (k : string) (m : list (string * V)) : option V :=
  match m with
  | [] => None
  | (k', v) :: m' => if String.eqb k k' then Some v else get k m'
  end.

Fixpoint set (k : string) (v : V) (m : list (string * V)) : list (string * V) :=
  match m with
  | [] => [(k, v)]
  | (k', v') :: m' =>
      if String.eqb k k' then (k', v) :: m' else (k', v') :: set k v m'
  end.

Definition keys (m : list (string * V)) : list string := map fst m.
Definition values (m : list (string * V)) : list V := map snd m.
End Map.
End JsMap.

(** ** scripts/convert_intact_to_tsv.mjs *)

Module Convert.
Import JS.

Definition TAB : string := String "009" EmptyString.
Definition LF : string := String "010" EmptyString.

(** The outcome of a computation that may throw. *)
Inductive result (A : Type) :=
| Ok (a : A)
| Throw (msg : string).
Arguments Ok {A} a.
Arguments Throw {A} msg.

#[export] Instance result_bind : MBind result := fun A B k r =>
  match r with Ok a => k a | Throw msg => Throw msg end.

(** A record built by [parseTSV]: field name to raw cell. *)
Abbreviation record := (gmap string string).

(** [v ?? ''] on a cell that is a string or [undefined]. *)
Definition orEmpty (v : option string) : string := default EmptyString v.

(** [String(v)] on a cell that is a string or [undefined]. *)
Definition String_of (v : option string) : string := default "undefined" v.

(** [Number(v)] on a cell that is a string or [undefined]; an empty or
    blank cell converts to 0, a missing one to [NaN]. *)
Definition Number_of (v : option string) : float :=
  match v with Some s => StringToNumber s | None => PrimFloat.nan end.

Definition extractBacktick (name text : string) : result string :=
  let marker := ("var " ++ name ++ " = `")%string in
  match indexOf marker text 0 with
  | None => Throw ("Could not find start marker for " ++ name)%string
  | Some start =>
      let from := (start + String.length marker)%nat in
      match indexOf "`" text from with
      | None => Throw ("Could not find end backtick for " ++ name)%string
      | Some end_ => Ok (trim (slice text from end_))
      end
  end.

Record table := Table { header : list string; rows : list record }.

(** The inner loop of [parseTSV]: [rec[header[j]] = cols[j]] for each
    [j] below [header.length]; it runs only when [cols] is at least as
    long as [header], so every [cols[j]] it reads is defined. *)
Definition mkRec (header cols : list string) : record :=
  fold_left (fun (rec : record) '(h, c) => <[h := c]> rec) (zip header cols) ∅.

(** The outer loop of [parseTSV] over the data lines. *)
Fixpoint parseRows (header : list string) (lines : list string) (rows : list record)
  : list record :=
  match lines with
  | [] => rows
  | line :: lines' =>
      let cols := split_tab line in
      if (length cols <? length header)%nat then parseRows header lines' rows
      else parseRows header lines' (rows ++ [mkRec header cols])
  end.

(** [lines[0].split] throws a [TypeError] when no line is left. *)
Definition parseTSV (tsv : string) : result table :=
  match List.filter nonempty (split_lines tsv) with
  | [] => Throw "TypeError: Cannot read properties of undefined (reading 'split')"
  | line0 :: lines =>
      let header := split_tab line0 in
      Ok (Table header (parseRows header lines []))
  end.

Definition priority : list string := ["0"; "4"; "3"; "1"; "7"].

(** [arr.indexOf(x)], [-1] when absent. *)
Fixpoint Array_indexOf_from (x : string) (arr : list string) (i : Z) : Z :=
  match arr with
  | [] => -1
  | y :: arr' => if String.eqb x y then i else Array_indexOf_from x arr' (i + 1)
  end.

Definition Array_indexOf (arr : list string) (x : string) : Z :=
  Array_indexOf_from x arr 0.

Definition hasValidElems (row : record) : bool :=
  let sma := Number_of (row !! "SMA") in
  let inc := Number_of (row !! "Inc") in
  let ecc := Number_of (row !! "Ecc") in
  let raan := Number_of (row !! "RAAN") in
  let argp := Number_of (row !! "ArgP") in
  let manom := Number_of (row !! "MeanAnom") in
  Number_isFinite sma && gt sma 0
  && forallb Number_isFinite [inc; ecc; raan; argp; manom]
  && (0 <? String.length (trim (orEmpty (row !! "Epoch"))))%nat.

Definition headerOut : list string :=
  ["DataSource"; "Name"; "Country"; "CatalogId"; "NoradId"; "BirthDate"; "Operator";
   "Users"; "Purpose"; "DetailedPurpose"; "LaunchMass"; "DryMass"; "Power"; "Lifetime";
   "Contractor"; "LaunchSite"; "LaunchVehicle"; "OrbitType"; "Epoch";
   "SMA"; "Ecc"; "Inc"; "RAAN"; "ArgP"; "MeanAnom"].

Definition SRC_FILE : string := "scripts/intactData.js".
Definition DS_FILE : string := "assets/data/www_data_sources.tsv".
Definition NODEB_FILE : string := "assets/data/www_query_NODEB.tsv".

Section Host.
(** [Date.parse] and [String.prototype.toUpperCase] of the host. *)
Variable Date_parse : string -> float.
Variable toUpperCase : string -> string.

Definition mapOrbitType (ch : string) : string :=
  let u := toUpperCase (trim ch) in
  if String.eqb u "L" then "LEO"
  else if String.eqb u "M" then "MEO"
  else if String.eqb u "G" then "GEO"
  else if String.eqb u "H" then "HEO"
  else "".

(** The name a descriptor row contributes. *)
Definition descriptorName (row : record) : string :=
  let id := trim (orEmpty (row !! "DataSourceId")) in
  let name := trim (orEmpty (row !! "Name")) in
  if String.eqb id "0" && includes "USSPACE" (toUpperCase name)
  then "USSTRATCOM" else name.

(** One turn of the loop that builds [idToName]. *)
Definition addDescriptor (idToName : list (string * string)) (row : record)
  : list (string * string) :=
  let id := trim (orEmpty (row !! "DataSourceId")) in
  let name := descriptorName row in
  if nonempty id then JsMap.set id name idToName else idToName.

Definition buildIdToName (rows : list record) : list (string * string) :=
  fold_left addDescriptor rows [].

Definition dsLines (idToName : list (string * string)) : list string :=
  ("Code" ++ TAB ++ "Name")%string
    :: map (fun '(id, name) => (id ++ TAB ++ name)%string) idToName.

Definition epochToDate (row : record) : float :=
  let e := trim (orEmpty (row !! "Epoch")) in
  let d := Date_parse e in
  if Number_isFinite d then d else PrimFloat.neg_infinity.

Definition sourceIndex (row : record) : Z :=
  Array_indexOf priority (trim (String_of (row !! "DataSourceId"))).

(** [pa !== -1 ? pa : 999]. *)
Definition rank (p : Z) : Z := if negb (p =? -1) then p else 999.

(** [better(a, b)], with [b] the current champion or [undefined]. *)
Definition better (a : record) (b : option record) : bool :=
  match b with
  | None => true
  | Some b =>
      let pa := sourceIndex a in
      let pb := sourceIndex b in
      if negb (pa =? pb) then rank pa <? rank pb
      else gt (epochToDate a) (epochToDate b)
  end.

(** [String(row['NoradId'] ?? '').trim()]; [String] of a string is
    the string. *)
Definition norad_of (row : record) : string := trim (orEmpty (row !! "NoradId")).

(** One turn of the loop that builds [bestByNorad]. *)
Definition consider (bestByNorad : list (string * record)) (row : record)
  : list (string * record) :=
  if negb (hasValidElems row) then bestByNorad
  else
    let norad := norad_of row in
    if negb (nonempty norad) then bestByNorad
    else
      let prev := JsMap.get norad bestByNorad in
      if better row prev then JsMap.set norad row bestByNorad else bestByNorad.

Definition reconcile (rows : list record) : list (string * record) :=
  fold_left consider rows [].

(** The columns of one emitted object row. *)
Definition outCols (row : record) : list string :=
  [ trim (orEmpty (row !! "DataSourceId"));
    orEmpty (row !! "Name");
    orEmpty (row !! "Country");
    orEmpty (row !! "CatalogId");
    orEmpty (row !! "NoradId");
    orEmpty (row !! "BirthDate");
    orEmpty (row !! "Operator");
    orEmpty (row !! "Users");
    orEmpty (row !! "Purpose");
    orEmpty (row !! "DetailedPurpose");
    orEmpty (row !! "LaunchMass");
    orEmpty (row !! "DryMass");
    orEmpty (row !! "Power");
    orEmpty (row !! "Lifetime");
    orEmpty (row !! "Contractor");
    orEmpty (row !! "LaunchSite");
    orEmpty (row !! "LaunchVehicle");
    mapOrbitType (orEmpty (row !! "OrbitType"));
    orEmpty (row !! "Epoch");
    orEmpty (row !! "SMA");
    orEmpty (row !! "Ecc");
    orEmpty (row !! "Inc");
    orEmpty (row !! "RAAN");
    orEmpty (row !! "ArgP");
    orEmpty (row !! "MeanAnom") ].

Definition outRows (bestByNorad : list (string * record)) : list string :=
  map (fun row => join TAB (outCols row)) (JsMap.values bestByNorad).

(** The two tables as [main] computes them from the parsed inputs. *)
Definition dsOut (ds : table) : string :=
  join LF (dsLines (buildIdToName (rows ds))).

Definition nodebOut (rso : table) : string :=
  join LF (join TAB headerOut :: outRows (reconcile (rows rso))).

(** [main] on a file system: paths (relative to the working
    directory) to contents. Both inputs are parsed before anything is
    written; failures of [mkdir] and [writeFile] themselves are left
    out. *)
Definition main (fs : gmap string string) : result (gmap string string) :=
  match fs !! SRC_FILE with
  | None => Throw "ENOENT: no such file or directory"
  | Some js =>
      dataSourcesTsv ← extractBacktick "dataSources" js;
      intactRsoTsv ← extractBacktick "intactRso" js;
      ds ← parseTSV dataSourcesTsv;
      rso ← parseTSV intactRsoTsv;
      Ok (<[NODEB_FILE := nodebOut rso]> (<[DS_FILE := dsOut ds]> fs))
  end.
End Host.

End Convert.

(** ** scripts/fetch_celestrak.mjs *)

Module Celestrak.
Import JS.

Definition MU_EARTH : float := 398600441800000%float.

Definition HEADER : string := join Convert.TAB Convert.headerOut.

(** [obj.FIELD] on a parsed JSON object. *)
Definition prop (obj : gmap string value) (k : string) : value :=
  default VUndefined (obj !! k).

Definition deg2rad (d : value) : float :=
  (ToNumber (or_else (VNum (ToNumber d)) (VNum 0)) * Math_PI / 180)%float.

Definition toISO (x : value) : string := ToString (or_else x (VStr "")).

Definition toNum (x : value) : value :=
  let n := ToNumber x in
  if Number_isFinite n then VNum n else VStr "".

(** What [cols.map] makes of one column. *)
Definition colValue (v : value) : value :=
  match v with
  | VNum x => if Number_isFinite x then VStr (NumberToString x) else nullish v (VStr "")
  | _ => nullish v (VStr "")
  end.

(** What [Array.prototype.join] makes of one element. *)
Definition joinText (v : value) : string :=
  match v with
  | VUndefined | VNull => ""
  | _ => ToString v
  end.

Section Host.
(** [Math.cbrt] of the host. *)
Variable Math_cbrt : float -> float.

Definition smaFromMeanMotionRevPerDay (nRevPerDay : value) : value :=
  let n := ToNumber nRevPerDay in
  if negb (Number_isFinite n) || (n <=? 0)%float then VStr ""
  else
    let nRadPerSec := (n * 2 * Math_PI / 86400)%float in
    VNum (Math_cbrt (MU_EARTH / (nRadPerSec * nRadPerSec))%float).

(** The columns of a row before they are mapped to text. *)
Definition cols (obj : gmap string value) : list value :=
  let name := or_else (prop obj "OBJECT_NAME") (VStr "") in
  let catalogId := or_else (prop obj "OBJECT_ID") (VStr "") in
  let noradId := or_else (prop obj "NORAD_CAT_ID") (VStr "") in
  let epoch := toISO (prop obj "EPOCH") in
  let sma := smaFromMeanMotionRevPerDay (prop obj "MEAN_MOTION") in
  let ecc := toNum (prop obj "ECCENTRICITY") in
  let inc := deg2rad (prop obj "INCLINATION") in
  let raan := deg2rad (prop obj "RA_OF_ASC_NODE") in
  let argp := deg2rad (prop obj "ARG_OF_PERICENTER") in
  let meanAnom := deg2rad (prop obj "MEAN_ANOMALY") in
  [ VStr "USSTRATCOM"; name; VStr ""; catalogId; noradId;
    VStr ""; VStr ""; VStr ""; VStr ""; VStr "";
    VStr ""; VStr ""; VStr ""; VStr ""; VStr "";
    VStr ""; VStr "";
    VStr "";
    VStr epoch; sma; ecc; VNum inc; VNum raan; VNum argp; VNum meanAnom ].

(** The text of each column of the emitted row. *)
Definition colTexts (obj : gmap string value) : list string :=
  map (fun v => joinText (colValue v)) (cols obj).

Definition rowFromCelestrak (obj : gmap string value) : string :=
  join Convert.TAB (colTexts obj).
End Host.

End Celestrak.

(** ** Vocabulary of the statements *)

Module Spec.
Import JS Convert.

(** A record that enters the reconciliation under the key [k]: its
    elements are valid and its trimmed [NoradId] is the non-empty [k]. *)
Definition accepted (k : string) (r : record) : Prop :=
  hasValidElems r = true /\ norad_of r = k /\ nonempty k = true.

(** The priority of a record's source: its position in [priority],
    999 when it is not listed (smaller is preferred). *)
Definition priorityOf (r : record) : Z := rank (sourceIndex r).

(** The champion of key [k] in a reconciled map. *)
Definition winner (k : string) (best : list (string * record)) : option record :=
  JsMap.get k best.

(** [a] prevails over [b] for the key [k]: of the two alone, in either
    order, [a] is the reconciled record; and in every input that holds
    both, the champion of [k] is a record that [a] does not beat, and
    is not [b]. *)
Definition prevails (Date_parse : string -> float) (k : string) (a b : record) : Prop :=
  winner k (reconcile Date_parse [a; b]) = Some a
  /\ winner k (reconcile Date_parse [b; a]) = Some a
  /\ forall rows, In a rows -> In b rows ->
       exists w, winner k (reconcile Date_parse rows) = Some w
                 /\ better Date_parse a (Some w) = false /\ w <> b.

(** The record's epoch parses to an instant. *)
Definition epochParses (Date_parse : string -> float) (r : record) : bool :=
  Number_isFinite (Date_parse (trim (orEmpty (r !! "Epoch")))).

(** Validity in the words of the specification: SMA a finite number
    above 0, the five other elements finite numbers, and the epoch a
    non-empty string. *)
Definition isValid_spec (r : record) : bool :=
  Number_isFinite (Number_of (r !! "SMA")) && gt (Number_of (r !! "SMA")) 0
  && Number_isFinite (Number_of (r !! "Ecc"))
  && Number_isFinite (Number_of (r !! "Inc"))
  && Number_isFinite (Number_of (r !! "RAAN"))
  && Number_isFinite (Number_of (r !! "ArgP"))
  && Number_isFinite (Number_of (r !! "MeanAnom"))
  && nonempty (orEmpty (r !! "Epoch")).

(** A data line has at least as many tab-separated tokens as the
    header. *)
Definition wide_enough (header : list string) (line : string) : bool :=
  (length header <=? length (split_tab line))%nat.

(** The trimmed id of a descriptor row. *)
Definition idOf (r : record) : string := trim (orEmpty (r !! "DataSourceId")).

(** The elements of a list in the order of their first occurrence. *)
Fixpoint first_occurrences (l : list string) : list string :=
  match l with
  | [] => []
  | x :: l' => x :: List.filter (fun y => negb (String.eqb y x)) (first_occurrences l')
  end.

(** [x] is not among [ks]. *)
Definition fresh (ks : list string) (x : string) : bool :=
  negb (existsb (String.eqb x) ks).

(** The last row of the input whose trimmed id is [id]. *)
Definition lastWithId (id : string) (rows : list record) : option record :=
  List.find (fun r => String.eqb (idOf r) id) (rev rows).

(** The DataSource column of an emitted object row. *)
Definition dataSourceOf (cols : list string) : string := hd EmptyString cols.

Fixpoint string_forallb (p : ascii -> bool) (s : string) : bool :=
  match s with
  | String c s' => p c && string_forallb p s'
  | EmptyString => true
  end.

(** Plain decimal text: digits, at most with a sign and a point; no
    exponent, no grouping or other separator. *)
Definition plain_char (c : ascii) : bool :=
  is_digit c || (code c =? 46) || (code c =? 45).

Definition plain_decimal (s : string) : bool := string_forallb plain_char s.

(** Text over the characters of a Number literal: those of plain
    decimal text and the exponent marks [e] and [+]. *)
Definition literal_char (c : ascii) : bool :=
  plain_char c || (code c =? 101) || (code c =? 43).

Definition locale_free (s : string) : bool := string_forallb literal_char s.

(** [t] is the default text of the Number [x]: [NaN], [Infinity],
    [-Infinity], [0], or digits over the characters of a Number
    literal that are plain decimal exactly when the decimal exponent
    [n] of [x] satisfies [-6 < n <= 21]. *)
Definition default_text_of (x : float) (t : string) : Prop :=
  t = NumberToString x
  /\ match Prim2SF x with
     | S754_nan => t = "NaN"
     | S754_infinity sg => t = if sg then "-Infinity" else "Infinity"
     | S754_zero _ => t = "0"
     | S754_finite _ m e =>
         locale_free t = true
         /\ plain_decimal t
            = (-6 <? fst (fst (decimal_digits (Zpos m) e)))
              && (fst (fst (decimal_digits (Zpos m) e)) <=? 21)
     end.

(** The two tables [main] writes, as a function of the source text. *)
Definition tables (Date_parse : string -> float) (toUpperCase : string -> string)
  (js : string) : result (string * string) :=
  dataSourcesTsv ← extractBacktick "dataSources" js;
  intactRsoTsv ← extractBacktick "intactRso" js;
  ds ← parseTSV dataSourcesTsv;
  rso ← parseTSV intactRsoTsv;
  Ok (dsOut toUpperCase ds, nodebOut Date_parse toUpperCase rso).

End Spec.

(** ** Sample inputs *)

Module Samples.
Import JS Convert.

(** An object record with the given source, name, epoch and SMA, for
    the object 25544. *)
Definition rso (source name epoch sma : string) : record :=
  list_to_map
    [("DataSourceId", source); ("NoradId", "25544"); ("Name", name);
     ("OrbitType", "L"); ("Epoch", epoch); ("SMA", sma); ("Ecc", "0.001");
     ("Inc", "0.9"); ("RAAN", "1"); ("ArgP", "2"); ("MeanAnom", "3")].

Definition from0_jan : record := rso "0" "ISS (ZARYA)" "2024-01-01" "6790000".
Definition from0_jun : record := rso "0" "ISS" "2024-06-01" "6791000".
Definition from0_jun' : record := rso "0" "ZARYA" "2024-06-01" "6792000".
Definition from4_sep : record := rso "4" "ISS" "2024-09-01" "6790000".
Definition from0_bad_epoch : record := rso "0" "ISS" "yesterday" "6790000".
Definition blank_epoch : record := rso "0" "ISS" " " "6790000".
Definition zero_sma : record := rso "0" "ISS" "2024-01-01" "0".
Definition nan_inclination : record := <["Inc" := "n/a"]> from0_jun.

(** A source text with one descriptor, id 0, and one object whose
    source, 9, has no descriptor. *)
Definition unresolved_js : string :=
  join LF
    [ "var dataSources = `DataSourceId" ++ TAB ++ "Name";
      "0" ++ TAB ++ "USSPACECOM`";
      "var intactRso = `" ++ join TAB ["DataSourceId"; "NoradId"; "Name"; "Epoch";
                                      "SMA"; "Ecc"; "Inc"; "RAAN"; "ArgP"; "MeanAnom"];
      join TAB ["9"; "25544"; "ISS"; "2024-06-01"; "6790000"; "0.001"; "0.9"; "1"; "2"; "3"];
      "25544" ++ TAB ++ "truncated";
      "`" ]%string.

(** A file system that holds [unresolved_js] as the source file. *)
Definition unresolved_fs : gmap string string := {[ SRC_FILE := unresolved_js ]}.

(** The same file system with the two tables that a run leaves: the
    descriptor row of id 0, renamed, and the object row of source 9. *)
Definition unresolved_out : gmap string string :=
  <[ NODEB_FILE :=
       join LF [ join TAB headerOut;
                 join TAB ["9"; "ISS"; ""; ""; "25544"; ""; ""; ""; ""; ""; "";
                           ""; ""; ""; ""; ""; ""; ""; "2024-06-01"; "6790000";
                           "0.001"; "0.9"; "1"; "2"; "3"] ] ]>
    (<[ DS_FILE := join LF [ join TAB ["Code"; "Name"];
                             join TAB ["0"; "USSTRATCOM"] ] ]>
       unresolved_fs).

(** A parsed GP element set whose eccentricity is one ten-millionth and
    which has no mean motion. *)
Definition near_circular : gmap string value :=
  list_to_map
    [("OBJECT_NAME", VStr "ISS"); ("NORAD_CAT_ID", VNum 25544);
     ("EPOCH", VStr "2024-06-01T00:00:00");
     ("ECCENTRICITY", VNum (StringToNumber "0.0000001"));
     ("INCLINATION", VNum (StringToNumber "51.6"))].

(** A stand-in for [Math.cbrt] where it is not called: [near_circular]
    has no mean motion. *)
Definition cbrt_unused (x : float) : float := x.

End Samples.

(** ** scripts/fetch_celestrak.mjs: fetching and writing *)

Module CelestrakMain.
Import JS Convert Celestrak.

Definition NODEB_FILE : string := "assets/data/www_query_NODEB.tsv".
Definition DEB_FILE : string := "assets/data/www_query_DEB.tsv".

Definition hex_digit (d : Z) : ascii :=
  ascii_of_N (Z.to_N (if d <? 10 then 48 + d else 55 + d)).

(** [%XX] for the byte [b]. *)
Definition percent (b : Z) : string :=
  String "%" (String (hex_digit (b / 16)) (String (hex_digit (b mod 16)) EmptyString)).

(** The characters [encodeURIComponent] leaves as they are: letters,
    digits and [- _ . ! ~ * ' ( )]. *)
Definition unreserved (c : ascii) : bool :=
  let n := code c in
  ((65 <=? n) && (n <=? 90)) || ((97 <=? n) && (n <=? 122)) || ((48 <=? n) && (n <=? 57))
  || (n =? 45) || (n =? 95) || (n =? 46) || (n =? 33) || (n =? 126)
  || (n =? 42) || (n =? 39) || (n =? 40) || (n =? 41).

(** [encodeURIComponent] on code units below U+0100: the other
    characters are written as the escaped bytes of their UTF-8 form. *)
Fixpoint encodeURIComponent (s : string) : string :=
  match s with
  | EmptyString => EmptyString
  | String c s' =>
      let n := code c in
      let escaped :=
        if unreserved c then String c EmptyString
        else if n <? 128 then percent n
        else String.append (percent (192 + n / 64)) (percent (128 + n mod 64)) in
      String.append escaped (encodeURIComponent s')
  end.

Definition activeUrl : string :=
  "https://celestrak.org/NORAD/elements/gp.php?GROUP=active&FORMAT=json".

Definition debrisGroups : list string := ["iridium-33-debris"; "cosmos-2251-debris"].

Definition debrisUrl (g : string) : string :=
  ("https://celestrak.org/NORAD/elements/gp.php?GROUP=" ++ encodeURIComponent g
   ++ "&FORMAT=json")%string.

(** What [fetch] resolves to: the [ok] flag, the status, and what
    [res.json()] gives, an array of element sets or a rejection. *)
Record response := Response {
  ok : bool;
  status : Z;
  json : result (list (gmap string value))
}.

Section Host.
(** [Math.cbrt] and [fetch] of the host; [fetch] rejects with a message
    or resolves to a response. The documents are arrays of objects, as
    CelesTrak serves them. *)
Variable Math_cbrt : float -> float.
Variable fetch : string -> result response.

Definition fetchJson (url : string) : result (list (gmap string value)) :=
  res ← fetch url;
  if negb (ok res) then Throw ("HTTP " ++ decimal (status res) ++ " for " ++ url)%string
  else json res.

(** One turn of the loop over [debrisGroups]: the rows gathered so far
    and the warnings written so far. *)
Definition fetchGroup (acc : list (gmap string value) * list string) (g : string)
  : list (gmap string value) * list string :=
  let '(debrisAll, warnings) := acc in
  match fetchJson (debrisUrl g) with
  | Ok arr => (debrisAll ++ arr, warnings)
  | Throw msg =>
      (debrisAll, warnings ++ [("[WARN] Skipping debris group " ++ g ++ ": " ++ msg)%string])
  end.

Definition lines (objs : list (gmap string value)) : string :=
  join LF (HEADER :: map (rowFromCelestrak Math_cbrt) objs).

(** [main] on a file system, with the warnings it writes. The table of
    active satellites is written before the debris groups are fetched;
    failures of [mkdir] and [writeFile] themselves are left out. *)
Definition main (fs : gmap string string)
  : result (gmap string string * list string) :=
  active ← fetchJson activeUrl;
  let fs1 := <[NODEB_FILE := lines active]> fs in
  let '(debrisAll, warnings) := fold_left fetchGroup debrisGroups ([], []) in
  Ok (<[DEB_FILE := lines debrisAll]> fs1, warnings).
End Host.

End CelestrakMain.

(** ** Further vocabulary *)

Module Terms.
Import JS Convert Spec.

(** No tab, line feed or carriage return in the text. *)
Definition clean_char (c : ascii) : bool :=
  negb ((code c =? 9) || (code c =? 10) || (code c =? 13)).

Definition clean (s : string) : bool := string_forallb clean_char s.

(** No character of code [n] in the text. *)
Definition free_of (n : Z) (s : string) : bool :=
  string_forallb (fun c => negb (code c =? n)) s.

(** The record is valid and has a non-empty key. *)
Definition acceptedb (r : record) : bool :=
  hasValidElems r && nonempty (norad_of r).

(** The rows of a table as the loader reads them back: one record per
    row, under the given header. *)
Definition reloaded (header : list string) (rows : list (list string)) : table :=
  Table header (map (mkRec header) rows).

(** White space and line terminators only. *)
Definition blank (s : string) : bool := string_forallb is_space s.

(** The text that declares the variable [name], up to the backtick
    that opens its value. *)
Definition declaration (name : string) : string := ("var " ++ name ++ " = ")%string.

(** Unreserved, or the percent sign of an escape. *)
Definition url_safe (c : ascii) : bool := CelestrakMain.unreserved c || (code c =? 37).

(** The element sets of a debris group, none when the request fails. *)
Definition fetched (fetch : string -> result CelestrakMain.response) (g : string)
  : list (gmap string value) :=
  match CelestrakMain.fetchJson fetch (CelestrakMain.debrisUrl g) with
  | Ok arr => arr
  | Throw _ => []
  end.

(** The warning written for a debris group, none when the request
    succeeds. *)
Definition skipped (fetch : string -> result CelestrakMain.response) (g : string)
  : list string :=
  match CelestrakMain.fetchJson fetch (CelestrakMain.debrisUrl g) with
  | Ok _ => []
  | Throw msg => [("[WARN] Skipping debris group " ++ g ++ ": " ++ msg)%string]
  end.

End Terms.

Module Fixtures.
Import JS Convert Samples.

(** A source text in which [x] is declared after a comment. *)
Definition padded_js : string := "// data" ++ LF ++ "var x = ` a `;".

(** A descriptor table with one row. *)
Definition one_descriptor : table :=
  Table ["DataSourceId"; "Name"]
        [list_to_map [("DataSourceId", "0"); ("Name", "USSPACECOM")]].

(** An object table with one row. *)
Definition one_object : table := Table [] [from0_jan].

(** A record whose key is blank. *)
Definition keyless : record := <["NoradId" := " "]> from0_jun.

(** A host that serves the active satellites and answers every other
    request with status 404. *)
Definition only_active (url : string) : result CelestrakMain.response :=
  if String.eqb url CelestrakMain.activeUrl
  then Ok (CelestrakMain.Response true 200 (Ok [near_circular]))
  else Ok (CelestrakMain.Response false 404 (Throw "no body")).

End Fixtures.

(** * Properties *)

(** ** Comparison of Numbers *)

Section NumberFacts.
Import JS.

Lemma SFcompare_swap x y :
  SFcompare y x = option_map CompOpp (SFcompare x y).
Proof.
  destruct x as [sx|sx| |sx mx ex], y as [sy|sy| |sy my ey]; simpl;
    try reflexivity; try (destruct sx; reflexivity); try (destruct sy; reflexivity);
    try (destruct sx, sy; reflexivity).
  destruct sx, sy; simpl; try reflexivity;
    rewrite (Z.compare_antisym ex ey); destruct (ex ?= ey) eqn:E; simpl; try reflexivity;
    rewrite (Pos.compare_cont_antisym mx my Eq); simpl;
    try rewrite CompOpp_involutive; reflexivity.
Qed.

(** [a < b] excludes [b < a]. *)
Lemma ltb_asym (a b : float) : (a <? b)%float = true -> (b <? a)%float = false.
Proof.
  rewrite !FloatAxioms.ltb_spec. unfold SFltb. rewrite (SFcompare_swap (Prim2SF a) (Prim2SF b)).
  destruct (SFcompare (Prim2SF a) (Prim2SF b)) as [[]|]; simpl; congruence.
Qed.

Lemma SFcompare_Lt_trans x y z :
  SFcompare x y = Some Lt -> SFcompare y z = Some Lt -> SFcompare x z = Some Lt.
Proof.
  destruct x as [sx|sx| |sx mx ex], y as [sy|sy| |sy my ey], z as [sz|sz| |sz mz ez];
    simpl; try discriminate; try reflexivity;
    try (destruct sx; simpl; try discriminate; try reflexivity; fail);
    try (destruct sx, sy; simpl; try discriminate; try reflexivity; fail);
    try (destruct sx, sz; simpl; try discriminate; try reflexivity; fail);
    try (destruct sy, sz; simpl; try discriminate; try reflexivity; fail);
    try (destruct sx, sy, sz; simpl; try discriminate; try reflexivity; fail).
  change (Pos.compare_cont Eq) with Pos.compare.
  destruct sx, sy, sz; simpl; try discriminate; try reflexivity;
    destruct (Z.compare_spec ex ey), (Z.compare_spec ey ez), (Z.compare_spec ex ez);
    try discriminate; try reflexivity; try lia; subst;
    destruct (Pos.compare_spec mx my), (Pos.compare_spec my mz), (Pos.compare_spec mx mz);
    simpl; try discriminate; try reflexivity; try lia.
Qed.

(** [<] on Numbers is transitive. *)
Lemma ltb_trans (a b c : float) :
  (a <? b)%float = true -> (b <? c)%float = true -> (a <? c)%float = true.
Proof.
  rewrite !FloatAxioms.ltb_spec. unfold SFltb.
  destruct (SFcompare (Prim2SF a) (Prim2SF b)) as [[]|] eqn:Hab; try discriminate.
  destruct (SFcompare (Prim2SF b) (Prim2SF c)) as [[]|] eqn:Hbc; try discriminate.
  now rewrite (SFcompare_Lt_trans _ _ _ Hab Hbc).
Qed.

Lemma ltb_irrefl (a : float) : (a <? a)%float = false.
Proof.
  destruct (a <? a)%float eqn:E; [|reflexivity]. now rewrite (ltb_asym _ _ E) in E.
Qed.

(** Equal Numbers are not ordered, either way. *)
Lemma eqb_not_ltb (a b : float) :
  (a =? b)%float = true -> (a <? b)%float = false /\ (b <? a)%float = false.
Proof.
  rewrite FloatAxioms.eqb_spec, !FloatAxioms.ltb_spec. unfold SFeqb, SFltb.
  rewrite (SFcompare_swap (Prim2SF a) (Prim2SF b)).
  destruct (SFcompare (Prim2SF a) (Prim2SF b)) as [[]|]; simpl; auto; congruence.
Qed.

Lemma SFcompare_Eq_congr x y z :
  SFcompare x y = Some Eq -> SFcompare z x = SFcompare z y.
Proof.
  destruct x as [sx|sx| |sx mx ex], y as [sy|sy| |sy my ey];
    simpl; try discriminate;
    try (destruct sx; discriminate); try (destruct sy; discriminate).
  - intros _. destruct z as [sz|sz| |sz mz ez]; reflexivity.
  - destruct sx, sy; try discriminate; intros _; destruct z as [sz|sz| |sz mz ez]; reflexivity.
  - change (Pos.compare_cont Eq) with Pos.compare.
    destruct sx, sy; try discriminate;
      destruct (Z.compare_spec ex ey); try discriminate; subst;
      destruct (Pos.compare_spec mx my); try discriminate; subst; reflexivity.
Qed.

(** Equal Numbers stand alike above any third. *)
Lemma gt_eqb_congr (a b c : float) :
  (a =? b)%float = true -> gt a c = gt b c.
Proof.
  unfold gt. rewrite FloatAxioms.eqb_spec, !FloatAxioms.ltb_spec. unfold SFeqb, SFltb.
  destruct (SFcompare (Prim2SF a) (Prim2SF b)) as [[]|] eqn:E; try discriminate.
  intros _. now rewrite (SFcompare_Eq_congr _ _ (Prim2SF c) E).
Qed.

(** A finite Number is a zero or has a mantissa and an exponent. *)
Lemma finite_Prim2SF (d : float) :
  Number_isFinite d = true ->
  (exists s, Prim2SF d = S754_zero s) \/ (exists s m e, Prim2SF d = S754_finite s m e).
Proof.
  unfold Number_isFinite, is_finite, Prim2SF. intros H.
  apply negb_true_iff, orb_false_iff in H as [Hn Hi]. rewrite Hn, Hi.
  destruct (is_zero d); [left; eauto|].
  destruct (Z.frexp d) as [r ex].
  destruct (shr_fexp _ _ _ _ _) as [sh e'].
  destruct (shr_m sh); [left|right|left]; eauto.
Qed.

(** [-Infinity] is below every finite Number. *)
Lemma neg_infinity_ltb_finite (d : float) :
  Number_isFinite d = true -> gt d PrimFloat.neg_infinity = true.
Proof.
  intros H. unfold gt. rewrite FloatAxioms.ltb_spec.
  destruct (finite_Prim2SF d H) as [[s ->]|(s & m & e & ->)]; reflexivity.
Qed.

End NumberFacts.

(** ** The insertion-ordered map *)

Section MapFacts.
Context {V : Type}.
Implicit Types (m : list (string * V)) (k : string) (v : V).

Lemma get_set_eq k v m : JsMap.get k (JsMap.set k v m) = Some v.
Proof.
  induction m as [|[k' v'] m IH]; simpl.
  - now rewrite String.eqb_refl.
  - destruct (String.eqb k k') eqn:E; simpl; rewrite E; auto.
Qed.

Lemma get_set_ne k k' v m :
  k <> k' -> JsMap.get k' (JsMap.set k v m) = JsMap.get k' m.
Proof.
  intros Hne. induction m as [|[k0 v0] m IH]; simpl.
  - destruct (String.eqb_spec k' k); congruence.
  - destruct (String.eqb_spec k k0) as [->|]; simpl.
    + destruct (String.eqb_spec k' k0); congruence.
    + now rewrite IH.
Qed.

(** Setting a present key leaves the order of the keys as it is. *)
Lemma keys_set_present k v m :
  JsMap.get k m <> None -> JsMap.keys (JsMap.set k v m) = JsMap.keys m.
Proof.
  induction m as [|[k' v'] m IH]; simpl; [congruence|].
  destruct (String.eqb_spec k k'); simpl; intros H; [reflexivity|].
  now rewrite IH.
Qed.

(** Setting a new key appends it. *)
Lemma keys_set_absent k v m :
  JsMap.get k m = None -> JsMap.keys (JsMap.set k v m) = (JsMap.keys m ++ [k])%list.
Proof.
  induction m as [|[k' v'] m IH]; simpl; [reflexivity|].
  destruct (String.eqb_spec k k'); simpl; intros H; [discriminate|].
  now rewrite IH.
Qed.

Lemma get_In k v m : JsMap.get k m = Some v -> In (k, v) m.
Proof.
  induction m as [|[k' v'] m IH]; simpl; [discriminate|].
  destruct (String.eqb_spec k k') as [->|]; intros H; [left; congruence|right; auto].
Qed.

End MapFacts.

(** ** Validity and reconciliation *)

Section Reconciliation.
Import JS Convert Spec.
Variable Date_parse : string -> float.

Local Abbreviation epochToDate := (Convert.epochToDate Date_parse).
Local Abbreviation better := (Convert.better Date_parse).
Local Abbreviation consider := (Convert.consider Date_parse).
Local Abbreviation reconcile := (Convert.reconcile Date_parse).

Lemma reconcile_snoc rows x : reconcile (rows ++ [x]) = consider (reconcile rows) x.
Proof. unfold Convert.reconcile. now rewrite fold_left_app. Qed.

Lemma consider_invalid m x : hasValidElems x = false -> consider m x = m.
Proof. unfold Convert.consider. now intros ->. Qed.

Lemma consider_accepted k m x :
  accepted k x ->
  consider m x = if better x (JsMap.get k m) then JsMap.set k x m else m.
Proof. intros (Hv & <- & Hk). unfold Convert.consider. now rewrite Hv, Hk. Qed.

(** A turn of the loop touches no key but the record's own. *)
Lemma consider_other k m x :
  norad_of x <> k -> JsMap.get k (consider m x) = JsMap.get k m.
Proof.
  intros Hne. unfold Convert.consider.
  destruct (negb (hasValidElems x)); [reflexivity|].
  destruct (negb (nonempty (norad_of x))); [reflexivity|].
  destruct (better x _); [|reflexivity].
  now apply get_set_ne.
Qed.

Lemma Array_indexOf_from_range x arr i :
  Array_indexOf_from x arr i = -1
  \/ i <= Array_indexOf_from x arr i < i + Z.of_nat (length arr).
Proof.
  revert i. induction arr as [|y arr IH]; simpl; intros i; [now left|].
  destruct (String.eqb x y); [right; lia|].
  destruct (IH (i + 1)) as [->|H]; [now left|right; lia].
Qed.

Lemma sourceIndex_range r : sourceIndex r = -1 \/ 0 <= sourceIndex r < 5.
Proof.
  unfold sourceIndex, Array_indexOf.
  destruct (Array_indexOf_from_range (trim (String_of (r !! "DataSourceId"))) priority 0)
    as [H|H]; [now left|right].
  change (Z.of_nat (length priority)) with 5 in H. lia.
Qed.

(** Records of equal priority stand at the same position of the list. *)
Lemma rank_inj (a b : record) : priorityOf a = priorityOf b -> sourceIndex a = sourceIndex b.
Proof.
  unfold priorityOf, rank.
  destruct (sourceIndex_range a), (sourceIndex_range b);
    destruct (Z.eqb_spec (sourceIndex a) (-1)), (Z.eqb_spec (sourceIndex b) (-1));
    simpl; lia.
Qed.

Lemma better_higher_priority a b :
  priorityOf a < priorityOf b -> better a (Some b) = true /\ better b (Some a) = false.
Proof.
  unfold priorityOf. intros H. unfold Convert.better.
  assert (sourceIndex a <> sourceIndex b) as Hne by (intros E; rewrite E in H; lia).
  destruct (Z.eqb_spec (sourceIndex a) (sourceIndex b)); [contradiction|].
  destruct (Z.eqb_spec (sourceIndex b) (sourceIndex a)); [congruence|].
  simpl. split; [apply Z.ltb_lt|apply Z.ltb_ge]; lia.
Qed.

Lemma reconcile_single k a : accepted k a -> reconcile [a] = [(k, a)].
Proof.
  intros Ha. unfold Convert.reconcile. simpl. now rewrite (consider_accepted k).
Qed.

(** Two records of one key: the second replaces the first exactly when
    [better] says so. *)
Lemma reconcile_pair k a b :
  accepted k a -> accepted k b ->
  winner k (reconcile [a; b]) = Some (if better b (Some a) then b else a).
Proof.
  intros Ha Hb. change [a; b] with ([a] ++ [b]).
  rewrite reconcile_snoc, (reconcile_single k a Ha), (consider_accepted k _ _ Hb).
  unfold winner.
  assert (JsMap.get k [(k, a)] = Some a) as -> by (cbn; now rewrite String.eqb_refl).
  destruct (better b (Some a)); cbn [JsMap.get JsMap.set];
    rewrite ?String.eqb_refl; cbn [JsMap.get]; now rewrite ?String.eqb_refl.
Qed.

(** [better] is the strict lexicographic order: priority first, then
    the later epoch. *)
Lemma better_spec a b :
  better a (Some b) = true
  <-> priorityOf a < priorityOf b
      \/ (priorityOf a = priorityOf b /\ gt (epochToDate a) (epochToDate b) = true).
Proof.
  unfold Convert.better. destruct (Z.eqb_spec (sourceIndex a) (sourceIndex b)) as [E|E]; simpl.
  - unfold priorityOf. rewrite E. split; [intros H; right; now split|]. intros [H|[_ H]]; [lia|exact H].
  - assert (priorityOf a <> priorityOf b) as Hne by (intros H; now apply rank_inj in H).
    unfold priorityOf in *. rewrite Z.ltb_lt. split; [now left|]. intros [H|[H _]]; [exact H|contradiction].
Qed.

Lemma better_irrefl a : better a (Some a) = false.
Proof.
  destruct (better a (Some a)) eqn:E; [|reflexivity].
  apply better_spec in E as [E|[_ E]]; [lia|]. unfold gt in E. now rewrite ltb_irrefl in E.
Qed.

(** A record that does not beat the champion does not beat the
    champion's successor either. *)
Lemma better_successor x y w :
  better x (Some w) = false -> better y (Some w) = true -> better x (Some y) = false.
Proof.
  intros Hxw Hyw. destruct (better x (Some y)) eqn:Hxy; [|reflexivity].
  assert (better x (Some w) = true) as Hc; [|congruence].
  apply better_spec in Hyw, Hxy. apply better_spec.
  destruct Hyw as [Hyw|[Hyw Eyw]], Hxy as [Hxy|[Hxy Exy]]; try (left; lia).
  right. split; [lia|]. unfold gt in *. exact (ltb_trans _ _ _ Eyw Exy).
Qed.

(** No accepted record of the input beats the champion of its key. *)
Lemma champion_unbeaten k a rows :
  accepted k a -> In a rows ->
  exists w, winner k (reconcile rows) = Some w /\ better a (Some w) = false.
Proof.
  intros Ha. induction rows as [|x rows IH] using rev_ind; [intros []|].
  rewrite reconcile_snoc. unfold winner in *. intros [Hin|[->|[]]]%in_app_or.
  - destruct (IH Hin) as (w & Hw & Hb).
    destruct (String.eqb_spec (norad_of x) k) as [Hk|Hk].
    + unfold Convert.consider.
      destruct (negb (hasValidElems x)); [now exists w|].
      destruct (negb (nonempty (norad_of x))); [now exists w|].
      rewrite Hk, Hw. destruct (better x (Some w)) eqn:Hx; [|now exists w].
      exists x. split; [apply get_set_eq|]. exact (better_successor a x w Hb Hx).
    + exists w. now rewrite (consider_other k _ x Hk).
  - rewrite (consider_accepted k _ a Ha).
    destruct (JsMap.get k (reconcile rows)) as [w|] eqn:Hw.
    + destruct (better a (Some w)) eqn:Hb; [|now exists w].
      exists a. split; [apply get_set_eq|apply better_irrefl].
    + simpl. exists a. split; [apply get_set_eq|apply better_irrefl].
Qed.

Lemma ltb_length_nonempty s : (0 <? String.length s)%nat = nonempty s.
Proof. now destruct s. Qed.

(** Records that fail [hasValidElems] do not touch the fold. *)
Lemma fold_consider_filter rows m :
  fold_left consider (List.filter hasValidElems rows) m = fold_left consider rows m.
Proof.
  revert m. induction rows as [|x rows IH]; intros m; simpl; [reflexivity|].
  destruct (hasValidElems x) eqn:Hx; simpl; [apply IH|].
  now rewrite (consider_invalid m x Hx).
Qed.

(** Every entry of the reconciled map is an accepted record of the
    input, stored under its own key. *)
Lemma reconcile_entries rows k w :
  winner k (reconcile rows) = Some w -> accepted k w /\ In w rows.
Proof.
  revert k w. induction rows as [|x rows IH] using rev_ind; intros k w; [discriminate|].
  rewrite reconcile_snoc. unfold winner, Convert.consider.
  destruct (hasValidElems x) eqn:Hv; simpl.
  2:{ intros H. destruct (IH k w H). split; [assumption|apply in_or_app; now left]. }
  destruct (nonempty (norad_of x)) eqn:Hk; simpl.
  2:{ intros H. destruct (IH k w H). split; [assumption|apply in_or_app; now left]. }
  destruct (better x _).
  2:{ intros H. destruct (IH k w H). split; [assumption|apply in_or_app; now left]. }
  destruct (String.eqb_spec (norad_of x) k) as [<-|Hne].
  - rewrite get_set_eq. intros [= <-]. split; [now repeat split|].
    apply in_or_app. right. now left.
  - rewrite (get_set_ne _ _ _ _ Hne). intros H.
    destruct (IH k w H). split; [assumption|apply in_or_app; now left].
Qed.

Lemma better_same_priority a b :
  priorityOf a = priorityOf b ->
  better a (Some b) = gt (epochToDate a) (epochToDate b).
Proof.
  intros H%rank_inj. unfold Convert.better. rewrite H, Z.eqb_refl. reflexivity.
Qed.

(** A record that beats another prevails over it. *)
Lemma better_prevails k a b :
  accepted k a -> accepted k b ->
  better a (Some b) = true -> better b (Some a) = false ->
  prevails Date_parse k a b.
Proof.
  intros Ha Hb Hab Hba. split; [|split].
  - now rewrite (reconcile_pair k a b Ha Hb), Hba.
  - now rewrite (reconcile_pair k b a Hb Ha), Hab.
  - intros rows Hina _. destruct (champion_unbeaten k a rows Ha Hina) as (w & Hw & Hbw).
    exists w. repeat split; [assumption|assumption|]. intros ->. congruence.
Qed.


(** C3. Recency tiebreak: of two accepted records of one key and equal
    source priority (both unlisted included), the one whose epoch
    parses to the later instant prevails; an epoch that does not parse
    counts as [-Infinity], the earliest instant, so a record whose
    epoch parses prevails over one whose epoch does not. *)
Theorem recency_tiebreak (k : string) (a b : record) :
  accepted k a -> accepted k b -> priorityOf a = priorityOf b ->
  (gt (epochToDate a) (epochToDate b) = true -> prevails Date_parse k a b)
  /\ (epochParses Date_parse b = false -> epochToDate b = PrimFloat.neg_infinity)
  /\ (epochParses Date_parse a = true -> epochParses Date_parse b = false ->
      prevails Date_parse k a b).
Proof.
  intros Ha Hb Hp.
  assert (gt (epochToDate a) (epochToDate b) = true -> prevails Date_parse k a b) as Hlater.
  { intros Hgt. apply better_prevails; try assumption.
    - now rewrite (better_same_priority a b Hp).
    - rewrite (better_same_priority b a (eq_sym Hp)). unfold gt in *.
      now apply ltb_asym. }
  split; [exact Hlater|split].
  - unfold epochParses, Convert.epochToDate. now intros ->.
  - intros Hpa Hpb. apply Hlater. unfold epochParses in *. unfold Convert.epochToDate.
    rewrite Hpa, Hpb. now apply neg_infinity_ltb_finite.
Qed.

(** Records that tie beat the same champions. *)
Lemma better_tie a b c :
  priorityOf a = priorityOf b ->
  (epochToDate a =? epochToDate b)%float = true ->
  better a (Some c) = better b (Some c).
Proof.
  intros Hp He. unfold Convert.better. rewrite (rank_inj a b Hp).
  destruct (negb _); [reflexivity|]. now apply gt_eqb_congr.
Qed.

(** Once a champion that [a] does not beat is in place, no record that
    ties with [a] becomes the champion. *)
Lemma tie_never_replaces k a b after m :
  priorityOf a = priorityOf b ->
  (epochToDate a =? epochToDate b)%float = true ->
  (exists c, winner k m = Some c /\ better a (Some c) = false /\ c <> b) ->
  exists c, winner k (fold_left consider after m) = Some c
            /\ better a (Some c) = false /\ c <> b.
Proof.
  intros Hp He. revert m. induction after as [|x after IH]; intros m Hm; [exact Hm|].
  simpl. apply IH. destruct Hm as (c & Hc & Hac & Hcb). unfold winner in *.
  destruct (String.eqb_spec (norad_of x) k) as [Hk|Hk].
  - unfold Convert.consider.
    destruct (negb (hasValidElems x)); [now exists c|].
    destruct (negb (nonempty (norad_of x))); [now exists c|].
    rewrite Hk, Hc. destruct (better x (Some c)) eqn:Hx; [|now exists c].
    exists x. split; [apply get_set_eq|]. split; [exact (better_successor a x c Hac Hx)|].
    intros ->. rewrite <- (better_tie a b c Hp He) in Hx. congruence.
  - exists c. now rewrite (consider_other k m x Hk).
Qed.

(** C4. Determinism under tie: of two accepted records of one key with
    equal source priority and equal parsed epoch, the one met first is
    the reconciled record: of the two alone, the first; a champion is
    never replaced by a record that ties with it; and in any input
    where [a] comes before every occurrence of [b], the result is not
    [b]. [reconcile] is a function of the input sequence, so the
    outcome is the same on every run. *)
Theorem tie_first_seen (k : string) (a b : record) :
  accepted k a -> accepted k b -> priorityOf a = priorityOf b ->
  (epochToDate a =? epochToDate b)%float = true ->
  winner k (reconcile [a; b]) = Some a
  /\ (forall m, winner k m = Some a -> winner k (consider m b) = Some a)
  /\ (forall before after, a <> b -> ~ In b before ->
       exists w, winner k (reconcile (before ++ a :: after)) = Some w /\ w <> b).
Proof.
  intros Ha Hb Hp He.
  assert (better b (Some a) = false) as Hba.
  { rewrite (better_same_priority b a (eq_sym Hp)). unfold gt.
    now destruct (eqb_not_ltb _ _ He). }
  split; [|split].
  - now rewrite (reconcile_pair k a b Ha Hb), Hba.
  - intros m Hm. rewrite (consider_accepted k m b Hb). unfold winner in *.
    now rewrite Hm, Hba.
  - intros before after Hab Hnb.
    destruct (tie_never_replaces k a b after (reconcile (before ++ [a])) Hp He)
      as (w & Hw & _ & Hwb).
    + destruct (champion_unbeaten k a (before ++ [a]) Ha) as (c & Hc & Hac).
      { apply in_or_app. right. now left. }
      exists c. repeat split; [assumption|assumption|]. intros ->.
      destruct (reconcile_entries _ _ _ Hc) as [_ [Hin|[Hin|[]]]%in_app_or]; congruence.
    + exists w. split; [|assumption].
      unfold Convert.reconcile in *. rewrite fold_left_app in Hw.
      change (before ++ a :: after) with (before ++ [a] ++ after).
      now rewrite !fold_left_app.
Qed.


End Reconciliation.

(** ** The loader *)

Section Loader.
Import JS Convert Spec.

Lemma parseRows_spec header lines acc :
  parseRows header lines acc
  = acc ++ map (fun l => mkRec header (split_tab l)) (List.filter (wide_enough header) lines).
Proof.
  revert acc. induction lines as [|l lines IH]; intros acc; simpl.
  - now rewrite app_nil_r.
  - unfold wide_enough at 1.
    destruct (Nat.ltb_spec (length (split_tab l)) (length header)) as [Hlt|Hge].
    + rewrite IH. destruct (Nat.leb_spec (length header) (length (split_tab l))); [lia|].
      reflexivity.
    + rewrite IH, <- app_assoc.
      destruct (Nat.leb_spec (length header) (length (split_tab l))); [|lia].
      reflexivity.
Qed.

(** C7. On a text with a header line, [parseTSV] returns (it does not
    throw) one record per data line that has at least as many tokens as
    the header, in order; a line with fewer tokens yields no record and
    leaves the records of the other lines as they are. Data lines are
    the non-empty lines after the header. *)
Theorem parseTSV_skips_short_rows (tsv line0 : string) (lines : list string) :
  List.filter nonempty (split_lines tsv) = line0 :: lines ->
  let header := split_tab line0 in
  parseTSV tsv
  = Ok (Table header (map (fun l => mkRec header (split_tab l))
                          (List.filter (wide_enough header) lines)))
  /\ (forall before short after,
        wide_enough header short = false ->
        parseRows header (before ++ short :: after) []
        = parseRows header (before ++ after) []).
Proof.
  intros Hlines header. split.
  - unfold parseTSV. rewrite Hlines. fold header. now rewrite parseRows_spec.
  - intros before short after Hshort. rewrite !parseRows_spec, !List.filter_app.
    simpl. now rewrite Hshort.
Qed.

End Loader.

(** ** The descriptor table *)

Section Descriptors.
Import JS Convert Spec.
Variable toUpperCase : string -> string.

Local Abbreviation descriptorName := (Convert.descriptorName toUpperCase).
Local Abbreviation addDescriptor := (Convert.addDescriptor toUpperCase).
Local Abbreviation buildIdToName := (Convert.buildIdToName toUpperCase).

Lemma fresh_keys {V} k (m : list (string * V)) :
  fresh (JsMap.keys m) k = match JsMap.get k m with Some _ => false | None => true end.
Proof.
  unfold fresh. induction m as [|[k' v] m IH]; simpl; [reflexivity|].
  destruct (String.eqb k k'); simpl; [reflexivity|apply IH].
Qed.

Lemma filter_filter_implied (p q : string -> bool) l :
  (forall x, p x = true -> q x = true) ->
  List.filter p (List.filter q l) = List.filter p l.
Proof.
  intros H. induction l as [|x l IH]; simpl; [reflexivity|].
  destruct (q x) eqn:Hq; simpl.
  - now rewrite IH.
  - destruct (p x) eqn:Hp; [|assumption]. rewrite (H x Hp) in Hq. discriminate.
Qed.

Lemma filter_fresh_snoc ks id l :
  List.filter (fresh (ks ++ [id])) l
  = List.filter (fresh ks) (List.filter (fun y => negb (String.eqb y id)) l).
Proof.
  induction l as [|x l IH]; simpl; [reflexivity|].
  unfold fresh at 1. rewrite existsb_app. simpl. rewrite orb_false_r, negb_orb.
  fold (fresh ks x). destruct (String.eqb x id); simpl.
  - rewrite andb_false_r. apply IH.
  - rewrite andb_true_r. destruct (fresh ks x); simpl; now rewrite IH.
Qed.

Lemma addDescriptor_empty_id m r : idOf r = EmptyString -> addDescriptor m r = m.
Proof. unfold Convert.addDescriptor, idOf. now intros ->. Qed.

Lemma addDescriptor_id m r :
  nonempty (idOf r) = true -> addDescriptor m r = JsMap.set (idOf r) (descriptorName r) m.
Proof. unfold Convert.addDescriptor, idOf. now intros ->. Qed.

(** The keys after the loop: those already there, then the new ids in
    the order of their first occurrence. *)
Lemma keys_fold_addDescriptor rows m :
  JsMap.keys (fold_left addDescriptor rows m)
  = JsMap.keys m
    ++ List.filter (fresh (JsMap.keys m))
         (first_occurrences (List.filter nonempty (map idOf rows))).
Proof.
  revert m. induction rows as [|r rows IH]; intros m; simpl.
  - now rewrite app_nil_r.
  - destruct (nonempty (idOf r)) eqn:Hid.
    + rewrite (addDescriptor_id m r Hid), IH. simpl. rewrite (fresh_keys (idOf r) m).
      destruct (JsMap.get (idOf r) m) eqn:Hget.
      * rewrite keys_set_present by congruence. f_equal. symmetry.
        apply filter_filter_implied. intros x Hx.
        destruct (String.eqb_spec x (idOf r)) as [->|]; [|reflexivity].
        rewrite fresh_keys, Hget in Hx. discriminate.
      * rewrite (keys_set_absent _ _ _ Hget), <- app_assoc. simpl.
        now rewrite filter_fresh_snoc.
    + rewrite addDescriptor_empty_id by (now destruct (idOf r)). apply IH.
Qed.

Lemma NoDup_first_occurrences l : List.NoDup (first_occurrences l).
Proof.
  induction l as [|x l IH]; simpl; constructor.
  - rewrite filter_In. intros [_ H]. now rewrite String.eqb_refl in H.
  - now apply List.NoDup_filter.
Qed.

Lemma buildIdToName_snoc rows r :
  buildIdToName (rows ++ [r]) = addDescriptor (buildIdToName rows) r.
Proof. unfold Convert.buildIdToName. now rewrite fold_left_app. Qed.

(** The name stored under an id is that of the last row with the id. *)
Lemma get_buildIdToName id rows :
  nonempty id = true ->
  JsMap.get id (buildIdToName rows) = option_map descriptorName (lastWithId id rows).
Proof.
  intros Hid. induction rows as [|r rows IH] using rev_ind; [reflexivity|].
  rewrite buildIdToName_snoc. unfold lastWithId. rewrite rev_unit. simpl.
  destruct (String.eqb_spec (idOf r) id) as [E|E].
  - rewrite addDescriptor_id by (now rewrite E). rewrite E. simpl. apply get_set_eq.
  - fold (lastWithId id rows). rewrite <- IH.
    destruct (nonempty (idOf r)) eqn:Hr.
    + rewrite (addDescriptor_id _ r Hr). now apply get_set_ne.
    + rewrite addDescriptor_empty_id by (now destruct (idOf r)). reflexivity.
Qed.

(** The keys of [idToName]: the non-empty trimmed ids, each once, in
    the order of first occurrence. *)
Lemma keys_buildIdToName rows :
  JsMap.keys (buildIdToName rows)
  = first_occurrences (List.filter nonempty (map idOf rows)).
Proof.
  unfold Convert.buildIdToName. rewrite keys_fold_addDescriptor. simpl.
  apply forallb_filter_id. apply forallb_forall. reflexivity.
Qed.


End Descriptors.

(** ** The emitted tables *)

Section Emitter.
Import JS Convert Spec.
Variable Date_parse : string -> float.
Variable toUpperCase : string -> string.

Local Abbreviation reconcile := (Convert.reconcile Date_parse).
Local Abbreviation buildIdToName := (Convert.buildIdToName toUpperCase).
Local Abbreviation outCols := (Convert.outCols toUpperCase).
Local Abbreviation outRows := (Convert.outRows toUpperCase).
Local Abbreviation main := (Convert.main Date_parse toUpperCase).
Local Abbreviation tables := (Spec.tables Date_parse toUpperCase).

Lemma In_first_occurrences x l : In x (first_occurrences l) <-> In x l.
Proof.
  induction l as [|y l IH]; simpl; [tauto|].
  rewrite filter_In, IH. destruct (String.eqb_spec x y) as [->|Hne]; simpl.
  - tauto.
  - intuition congruence.
Qed.


Lemma main_tables fs :
  main fs = match fs !! SRC_FILE with
            | None => Throw "ENOENT: no such file or directory"
            | Some js =>
                match tables js with
                | Ok (d, n) => Ok (<[NODEB_FILE := n]> (<[DS_FILE := d]> fs))
                | Throw msg => Throw msg
                end
            end.
Proof.
  unfold Convert.main, Spec.tables. destruct (fs !! SRC_FILE) as [js|]; [|reflexivity].
  destruct (extractBacktick "dataSources" js) as [t1|]; [|reflexivity].
  destruct (extractBacktick "intactRso" js) as [t2|]; [|reflexivity].
  unfold mbind, result_bind.
  destruct (parseTSV t1); [|reflexivity].
  destruct (parseTSV t2); reflexivity.
Qed.


End Emitter.

(** ** Numbers as text *)

Section NumberText.
Import JS Spec.

Lemma string_forallb_app p s t :
  string_forallb p (s ++ t)%string = string_forallb p s && string_forallb p t.
Proof.
  induction s as [|c s IH]; simpl; [reflexivity|]. now rewrite IH, andb_assoc.
Qed.

Lemma string_forallb_weaken (p q : ascii -> bool) s :
  (forall c, p c = true -> q c = true) ->
  string_forallb p s = true -> string_forallb q s = true.
Proof.
  intros H. induction s as [|c s IH]; simpl; [reflexivity|].
  intros [Hc Hs]%andb_true_iff. now rewrite (H c Hc), IH.
Qed.

Lemma string_forallb_take p n s :
  string_forallb p s = true -> string_forallb p (take_string n s) = true.
Proof.
  revert s. induction n as [|n IH]; intros [|c s]; simpl; try reflexivity.
  intros [Hc Hs]%andb_true_iff. now rewrite Hc, IH.
Qed.

Lemma string_forallb_drop p n s :
  string_forallb p s = true -> string_forallb p (drop_string n s) = true.
Proof.
  revert s. induction n as [|n IH]; intros [|c s]; simpl; try reflexivity; [tauto|].
  intros [Hc Hs]%andb_true_iff. now apply IH.
Qed.

Lemma is_digit_digit_char d : is_digit (digit_char d) = true.
Proof.
  unfold digit_char.
  assert (0 <= d mod 10 < 10) as H by (apply Z.mod_pos_bound; lia).
  assert (d mod 10 = 0 \/ d mod 10 = 1 \/ d mod 10 = 2 \/ d mod 10 = 3 \/ d mod 10 = 4
          \/ d mod 10 = 5 \/ d mod 10 = 6 \/ d mod 10 = 7 \/ d mod 10 = 8 \/ d mod 10 = 9)
    as Hd by lia.
  repeat destruct Hd as [->|Hd]; try reflexivity. now rewrite Hd.
Qed.

Lemma digits_decimal_go fuel z acc :
  string_forallb is_digit acc = true ->
  string_forallb is_digit (decimal_go fuel z acc) = true.
Proof.
  revert z acc. induction fuel as [|fuel IH]; intros z acc Hacc; simpl; [assumption|].
  destruct (z <? 10).
  - simpl. now rewrite is_digit_digit_char.
  - apply IH. simpl. now rewrite is_digit_digit_char.
Qed.

(** The decimal representation of an integer consists of digits. *)
Lemma digits_decimal z : string_forallb is_digit (decimal z) = true.
Proof. now apply digits_decimal_go. Qed.

Lemma digits_zeros n : string_forallb is_digit (zeros n) = true.
Proof. induction n; simpl; auto. Qed.

Lemma digit_plain c : is_digit c = true -> plain_char c = true.
Proof. unfold plain_char. now intros ->. Qed.

Lemma plain_literal c : plain_char c = true -> literal_char c = true.
Proof. unfold literal_char. now intros ->. Qed.

(** The text of the digits is plain decimal exactly when the decimal
    exponent lies in the window of steps 6 to 8. *)
Lemma plain_format_digits n k ds :
  1 <= k -> string_forallb is_digit ds = true ->
  plain_decimal (format_digits n k ds) = (-6 <? n) && (n <=? 21).
Proof.
  intros Hk Hds. unfold format_digits, plain_decimal.
  assert (string_forallb plain_char ds = true) as Hp
    by (now apply (string_forallb_weaken is_digit plain_char ds digit_plain)).
  destruct (Z.leb_spec k n), (Z.leb_spec n 21), (Z.ltb_spec 0 n), (Z.ltb_spec (-6) n),
    (Z.leb_spec n 0); simpl; try lia;
    rewrite ?string_forallb_app; simpl;
    rewrite ?string_forallb_take, ?string_forallb_drop, ?Hp by assumption;
    rewrite ?(string_forallb_weaken is_digit plain_char _ digit_plain (digits_zeros _));
    try reflexivity;
    destruct (k =? 1); rewrite ?string_forallb_app; simpl;
    rewrite ?string_forallb_app; simpl; rewrite ?andb_false_r; reflexivity.
Qed.

(** Whatever the exponent, the text uses the characters of a Number
    literal only. *)
Lemma locale_free_format_digits n k ds :
  string_forallb is_digit ds = true -> locale_free (format_digits n k ds) = true.
Proof.
  intros Hds. unfold format_digits, locale_free.
  assert (forall c, is_digit c = true -> literal_char c = true) as Hdl
    by (intros c Hc; now apply plain_literal, digit_plain).
  assert (string_forallb literal_char ds = true) as Hp
    by (now apply (string_forallb_weaken is_digit literal_char ds Hdl)).
  assert (forall z, string_forallb literal_char (decimal z) = true) as Hdec
    by (intros z; apply (string_forallb_weaken is_digit literal_char _ Hdl), digits_decimal).
  assert (forall z, string_forallb literal_char (zeros z) = true) as Hz
    by (intros z; apply (string_forallb_weaken is_digit literal_char _ Hdl), digits_zeros).
  repeat match goal with |- context [if ?b then _ else _] => destruct b end;
    rewrite ?string_forallb_app;
    rewrite ?string_forallb_take, ?string_forallb_drop, ?Hp, ?Hdec, ?Hz by assumption;
    reflexivity.
Qed.

Lemma shortest_k fuel m e n0 k0 :
  1 <= k0 -> 1 <= snd (fst (shortest fuel m e n0 k0)).
Proof.
  revert k0. induction fuel as [|fuel IH]; intros k0 Hk; simpl; [assumption|].
  destruct (nearest _ _ _) as [[n s]|]; simpl; [assumption|]. apply IH. lia.
Qed.

(** The text of a Number: [NaN], [Infinity], [-Infinity], [0], or
    digits that are plain decimal exactly when the decimal exponent [n]
    of the Number satisfies [-6 < n <= 21], and carry an exponent
    otherwise; in all finite cases no character outside those of a
    Number literal occurs. *)
Lemma NumberToString_shape (x : float) :
  match Prim2SF x with
  | S754_nan => NumberToString x = "NaN"
  | S754_infinity sg => NumberToString x = if sg then "-Infinity" else "Infinity"
  | S754_zero _ => NumberToString x = "0"
  | S754_finite _ m e =>
      locale_free (NumberToString x) = true
      /\ plain_decimal (NumberToString x)
         = (-6 <? fst (fst (decimal_digits (Zpos m) e)))
           && (fst (fst (decimal_digits (Zpos m) e)) <=? 21)
  end.
Proof.
  unfold NumberToString. destruct (Prim2SF x) as [sg|sg| |sg m e]; try reflexivity.
  pose proof (shortest_k 17 (Zpos m) e
                (decimal_exponent 8 (rat_mul (Rat (Zpos m) 1) (rat_pow 2 e))
                   (if 0 <=? Z.log2 (Zpos m) + e
                    then (Z.log2 (Zpos m) + e) * 30102 / 100000
                    else (Z.log2 (Zpos m) + e) * 30103 / 100000)) 1 ltac:(lia)) as Hk.
  fold (decimal_digits (Zpos m) e) in Hk.
  destruct (decimal_digits (Zpos m) e) as [[n k] s]. simpl in Hk. simpl fst.
  split.
  - unfold locale_free. rewrite string_forallb_app.
    fold (locale_free (format_digits n k (decimal s))).
    rewrite (locale_free_format_digits n k _ (digits_decimal s)).
    now destruct sg.
  - unfold plain_decimal. rewrite string_forallb_app.
    fold (plain_decimal (format_digits n k (decimal s))).
    rewrite (plain_format_digits n k _ Hk (digits_decimal s)).
    now destruct sg.
Qed.

End NumberText.

(** ** The CelesTrak rows *)

Section CelestrakRows.
Import JS Spec Celestrak.
Variable Math_cbrt : float -> float.

Local Abbreviation smaFromMeanMotionRevPerDay :=
  (Celestrak.smaFromMeanMotionRevPerDay Math_cbrt).
Local Abbreviation colTexts := (Celestrak.colTexts Math_cbrt).

(** C6. With [n] the mean motion as a Number: when [n] is not finite
    or [n <= 0] the conversion returns the empty string, which is no
    Number (so neither zero nor NaN) and is emitted as an empty column;
    otherwise it returns [cbrt (mu / (w * w))] with [w = n * 2 * pi /
    86400] and [mu = 3.986004418e14], in binary64 arithmetic. *)
Theorem sma_domain_policy (nRevPerDay : value) :
  let n := ToNumber nRevPerDay in
  let w := (n * 2 * Math_PI / 86400)%float in
  (Number_isFinite n = false \/ (n <=? 0)%float = true ->
   smaFromMeanMotionRevPerDay nRevPerDay = VStr ""
   /\ (forall x, smaFromMeanMotionRevPerDay nRevPerDay <> VNum x)
   /\ joinText (colValue (smaFromMeanMotionRevPerDay nRevPerDay)) = "")
  /\ (Number_isFinite n = true -> (n <=? 0)%float = false ->
      smaFromMeanMotionRevPerDay nRevPerDay
      = VNum (Math_cbrt (MU_EARTH / (w * w))%float))
  /\ MU_EARTH = StringToNumber "3.986004418e14".
Proof.
  intros n w. unfold Celestrak.smaFromMeanMotionRevPerDay. fold n. split; [|split].
  - intros H.
    assert (negb (Number_isFinite n) || (n <=? 0)%float = true) as ->
      by (destruct H as [-> | ->]; [reflexivity|apply orb_true_r]).
    repeat split; discriminate.
  - intros -> ->. reflexivity.
  - vm_compute. reflexivity.
Qed.

Lemma number_text x : default_text_of x (NumberToString x).
Proof.
  split; [reflexivity|]. pose proof (NumberToString_shape x) as H.
  destruct (Prim2SF x); exact H.
Qed.

Lemma lookup_map {A B} (f : A -> B) (l : list A) (i : nat) :
  map f l !! i = option_map f (l !! i).
Proof.
  revert i. induction l as [|a l IH]; intros [|i]; simpl; try reflexivity. apply IH.
Qed.


(** The six element columns are numeric or empty. *)
Lemma element_columns (obj : gmap string value) (i : nat) (v : value) :
  (19 <= i)%nat -> cols Math_cbrt obj !! i = Some v ->
  v = VStr "" \/ exists x, v = VNum x.
Proof.
  intros Hi. unfold cols. do 19 (destruct i as [|i]; [lia|]). clear Hi.
  destruct i as [|i].
  { cbn [lookup list_lookup]. intros [= <-].
    unfold Celestrak.smaFromMeanMotionRevPerDay.
    destruct (negb _ || _); [now left|right; eauto]. }
  destruct i as [|i].
  { cbn [lookup list_lookup]. intros [= <-]. unfold toNum.
    destruct (Number_isFinite _); [right; eauto|now left]. }
  do 4 (destruct i as [|i]; [cbn [lookup list_lookup]; intros [= <-]; right; eauto|]).
  discriminate.
Qed.

End CelestrakRows.

(** ** The properties on the sample inputs *)

Import JS Convert Spec Samples.

Local Abbreviation reconcile := (Convert.reconcile Date_parse_ymd).
Local Abbreviation main := (Convert.main Date_parse_ymd toUpperCase_ascii).

Lemma accepted_from0_jan : accepted "25544" from0_jan.
Proof. repeat split; vm_compute; reflexivity. Defined.

Lemma accepted_from0_jun : accepted "25544" from0_jun.
Proof. repeat split; vm_compute; reflexivity. Defined.

Lemma accepted_from0_jun' : accepted "25544" from0_jun'.
Proof. repeat split; vm_compute; reflexivity. Defined.

Lemma accepted_from4_sep : accepted "25544" from4_sep.
Proof. repeat split; vm_compute; reflexivity. Defined.

Lemma accepted_from0_bad_epoch : accepted "25544" from0_bad_epoch.
Proof. repeat split; vm_compute; reflexivity. Defined.

(** The scenario of the specification: records from sources 0, 4 and 0;
    the later of the two records of source 0 is the result. *)
Example scenario_25544 :
  winner "25544" (reconcile [from0_jan; from4_sep; from0_jun]) = Some from0_jun.
Proof. vm_compute. reflexivity. Qed.

(** The invalid records of the specification: a zero SMA, an
    inclination that is no number, a blank epoch. None is ever a
    result, and none changes the result of the others. *)
Example invalid_records_are_inert :
  map hasValidElems [zero_sma; nan_inclination; blank_epoch] = [false; false; false]
  /\ reconcile [zero_sma; from0_jan; nan_inclination; blank_epoch] = reconcile [from0_jan].
Proof. split; vm_compute; reflexivity. Qed.


(** C3 on the samples: June against January of one source, and a
    parsed epoch against one that does not parse. *)
Lemma recency_tiebreak_witness :
  prevails Date_parse_ymd "25544" from0_jun from0_jan
  /\ prevails Date_parse_ymd "25544" from0_jan from0_bad_epoch.
Proof.
  split.
  - destruct (recency_tiebreak Date_parse_ymd "25544" from0_jun from0_jan
                accepted_from0_jun accepted_from0_jan) as (H & _).
    + vm_compute. reflexivity.
    + apply H. vm_compute. reflexivity.
  - destruct (recency_tiebreak Date_parse_ymd "25544" from0_jan from0_bad_epoch
                accepted_from0_jan accepted_from0_bad_epoch) as (_ & _ & H).
    + vm_compute. reflexivity.
    + apply H; vm_compute; reflexivity.
Defined.

(** C4 on the samples: two records of source 0 with the same epoch. *)
Lemma tie_first_seen_witness :
  winner "25544" (reconcile [from0_jun; from0_jun']) = Some from0_jun
  /\ winner "25544" (reconcile [from0_jun'; from0_jun]) = Some from0_jun'.
Proof.
  split.
  - apply (tie_first_seen Date_parse_ymd "25544" from0_jun from0_jun'
             accepted_from0_jun accepted_from0_jun'); vm_compute; reflexivity.
  - apply (tie_first_seen Date_parse_ymd "25544" from0_jun' from0_jun
             accepted_from0_jun' accepted_from0_jun); vm_compute; reflexivity.
Defined.


(** C7 on a sample: a header of three tokens, a line of two tokens, an
    empty line and a line of four tokens. *)
Lemma parseTSV_skips_short_rows_witness :
  parseTSV (join LF [join TAB ["A"; "B"; "C"]; join TAB ["1"; "2"]; "";
                     join TAB ["3"; "4"; "5"; "6"]])
  = Ok (Table ["A"; "B"; "C"] [list_to_map [("A", "3"); ("B", "4"); ("C", "5")]]).
Proof.
  refine (proj1 (parseTSV_skips_short_rows _ (join TAB ["A"; "B"; "C"])
                   [join TAB ["1"; "2"]; join TAB ["3"; "4"; "5"; "6"]] _)).
  vm_compute. reflexivity.
Defined.




(** The window of plain decimal text: from 1e-6 up to 1e21. *)
Example exponent_window :
  map (fun s => NumberToString (StringToNumber s))
      ["0.000001"; "0.00000099"; "123456789012345680000"; "1000000000000000000000";
       "-0.5"; "6790000"; "0.9005898940290741"]
  = ["0.000001"; "9.9e-7"; "123456789012345680000"; "1e+21";
     "-0.5"; "6790000"; "0.9005898940290741"].
Proof. vm_compute. reflexivity. Qed.



(** * Further properties of the two scripts *)

(** ** Lines and cells *)

Section Cells.
Import Terms.

Lemma pieces_cons (q : ascii -> bool) c (ps : list string) :
  q c = true ->
  List.Forall (fun p => string_forallb q p = true) ps ->
  List.Forall (fun p => string_forallb q p = true)
    (match ps with p :: ps' => String c p :: ps' | [] => [String c EmptyString] end).
Proof.
  intros Hc [|p ps' Hp Hps]; constructor; simpl; try rewrite Hc; auto.
Qed.

(** Splitting keeps what holds of every character. *)
Lemma split_tab_forall (q : ascii -> bool) s :
  string_forallb q s = true ->
  List.Forall (fun p => string_forallb q p = true) (split_tab s).
Proof.
  induction s as [|c s IH]; simpl; [repeat constructor|].
  intros [Hc Hs]%andb_true_iff. destruct (code c =? 9).
  - constructor; [reflexivity|auto].
  - apply pieces_cons; auto.
Qed.

(** No piece of [split_tab] holds a tab. *)
Lemma split_tab_free s :
  List.Forall (fun p => free_of 9 p = true) (split_tab s).
Proof.
  unfold free_of. induction s as [|c s IH]; simpl; [repeat constructor|].
  destruct (code c =? 9) eqn:E.
  - constructor; [reflexivity|auto].
  - apply (pieces_cons (fun c => negb (code c =? 9))); [now rewrite E|exact IH].
Qed.

Lemma split_lines_forall_len (q : ascii -> bool) n s :
  (String.length s <= n)%nat ->
  string_forallb q s = true ->
  List.Forall (fun p => string_forallb q p = true) (split_lines s).
Proof.
  revert s. induction n as [|n IH]; intros [|c s] Hn; simpl in *;
    try (intros; repeat constructor; fail); try lia.
  intros [Hc Hs]%andb_true_iff. destruct (code c =? 10).
  - constructor; [reflexivity|]. apply IH; [lia|assumption].
  - destruct s as [|c' s'].
    + repeat constructor. simpl. now rewrite Hc.
    + destruct ((code c =? 13) && (code c' =? 10)).
      * constructor; [reflexivity|]. simpl in Hs, Hn.
        apply andb_true_iff in Hs as [_ Hs]. apply IH; [lia|assumption].
      * apply pieces_cons; [assumption|]. apply IH; [lia|assumption].
Qed.

Lemma split_lines_free_len n s :
  (String.length s <= n)%nat ->
  List.Forall (fun p => free_of 10 p = true) (split_lines s).
Proof.
  unfold free_of.
  revert s. induction n as [|n IH]; intros [|c s] Hn; simpl in *;
    try (repeat constructor; fail); try lia.
  destruct (code c =? 10) eqn:E.
  - constructor; [reflexivity|]. apply IH; lia.
  - destruct s as [|c' s'].
    + repeat constructor. simpl. now rewrite E.
    + destruct ((code c =? 13) && (code c' =? 10)).
      * constructor; [reflexivity|]. simpl in Hn. apply IH; lia.
      * apply (pieces_cons (fun c => negb (code c =? 10))); [now rewrite E|].
        apply IH; lia.
Qed.

End Cells.

Section RoundTrips.
Import Terms.

Lemma free_of_clean n s : (n = 9 \/ n = 10 \/ n = 13) -> clean s = true -> free_of n s = true.
Proof.
  intros Hn. apply string_forallb_weaken. intros c. unfold clean_char.
  destruct (code c =? 9) eqn:E9, (code c =? 10) eqn:E10, (code c =? 13) eqn:E13;
    simpl; try discriminate; intros _;
    destruct Hn as [ -> | [ -> | -> ] ]; now rewrite ?E9, ?E10, ?E13.
Qed.

Lemma split_tab_single p : free_of 9 p = true -> split_tab p = [p].
Proof.
  unfold free_of. induction p as [|c p IH]; simpl; [reflexivity|].
  intros [Hc Hp]%andb_true_iff. apply negb_true_iff in Hc. now rewrite Hc, IH.
Qed.

Lemma split_tab_app p rest :
  free_of 9 p = true -> split_tab (p ++ TAB ++ rest)%string = p :: split_tab rest.
Proof.
  unfold free_of. induction p as [|c p IH]; simpl; [reflexivity|].
  intros [Hc Hp]%andb_true_iff. apply negb_true_iff in Hc. now rewrite Hc, IH.
Qed.

(** Joining cells that hold no tab and splitting the text gives the
    cells back. *)
Lemma split_tab_join cols :
  cols <> [] -> forallb (free_of 9) cols = true -> split_tab (join TAB cols) = cols.
Proof.
  induction cols as [ | p [ | p' ps ] IH ]; [congruence| |]; intros _ H.
  - simpl in *. apply andb_true_iff in H as [Hp _]. now apply split_tab_single.
  - change (join TAB (p :: p' :: ps)) with (p ++ TAB ++ join TAB (p' :: ps))%string.
    simpl in H. apply andb_true_iff in H as [Hp H].
    rewrite (split_tab_app _ _ Hp), IH; [reflexivity|congruence|exact H].
Qed.

Lemma split_lines_single l : free_of 10 l = true -> split_lines l = [l].
Proof.
  unfold free_of. induction l as [|c l IH]; simpl; [reflexivity|].
  intros [Hc Hl]%andb_true_iff. apply negb_true_iff in Hc. rewrite Hc.
  destruct l as [|c' l']; [reflexivity|].
  rewrite (IH Hl). simpl in Hl. apply andb_true_iff in Hl as [Hc' _].
  apply negb_true_iff in Hc'. now rewrite Hc', andb_false_r.
Qed.

Lemma split_lines_app l rest :
  free_of 10 l = true -> free_of 13 l = true ->
  split_lines (l ++ LF ++ rest)%string = l :: split_lines rest.
Proof.
  unfold free_of. induction l as [|c l IH]; [reflexivity|].
  intros [Hc Hl]%andb_true_iff [Hr Hl']%andb_true_iff.
  apply negb_true_iff in Hc, Hr.
  change (String c l ++ LF ++ rest)%string with (String c (l ++ LF ++ rest))%string.
  cbn [split_lines]. rewrite Hc, Hr. cbn [andb].
  rewrite (IH Hl Hl').
  destruct (l ++ LF ++ rest)%string eqn:E; [destruct l; discriminate E|reflexivity].
Qed.

(** Joining lines that hold no line feed and no carriage return and
    splitting the text gives the lines back. *)
Lemma split_lines_join ls :
  ls <> [] -> forallb (fun l => free_of 10 l && free_of 13 l) ls = true ->
  split_lines (join LF ls) = ls.
Proof.
  induction ls as [ | l [ | l' ls' ] IH ]; [congruence| |]; intros _ H.
  - simpl in *. apply andb_true_iff in H as [[Hl _]%andb_true_iff _].
    now apply split_lines_single.
  - change (join LF (l :: l' :: ls')) with (l ++ LF ++ join LF (l' :: ls'))%string.
    simpl in H. apply andb_true_iff in H as [[Hl Hr]%andb_true_iff H].
    rewrite (split_lines_app _ _ Hl Hr), IH; [reflexivity|congruence|exact H].
Qed.

Lemma forallb_join (q : ascii -> bool) sep cols :
  string_forallb q sep = true ->
  forallb (string_forallb q) cols = true -> string_forallb q (join sep cols) = true.
Proof.
  intros Hsep. induction cols as [ | p [ | p' ps ] IH ]; simpl; [reflexivity| |].
  - now rewrite andb_true_r.
  - intros [Hp H]%andb_true_iff. rewrite !string_forallb_app, Hp, Hsep. simpl.
    now apply IH.
Qed.

Lemma nonempty_join_tab cols : (2 <= length cols)%nat -> nonempty (join TAB cols) = true.
Proof.
  destruct cols as [|p [|p' ps]]; simpl; try lia. intros _. now destruct p.
Qed.

(** A line of cells without tab, line feed or carriage return: it is
    free of line breaks and splits back into the cells. *)
Lemma row_line cols :
  forallb clean cols = true ->
  free_of 10 (join TAB cols) && free_of 13 (join TAB cols) = true
  /\ (cols <> [] -> split_tab (join TAB cols) = cols).
Proof.
  intros H. split.
  - apply andb_true_iff. split; apply forallb_join; try reflexivity;
      apply forallb_forall; intros c Hc; rewrite forallb_forall in H;
      apply free_of_clean; auto.
  - intros Hne. apply split_tab_join; [assumption|].
    apply forallb_forall. intros c Hc. rewrite forallb_forall in H.
    apply free_of_clean; auto.
Qed.

(** The loader reads back a table written as the emitters write one:
    the header and the rows joined by tabs, the lines joined by line
    feeds. *)
Lemma parseTSV_join (hs : list string) (rs : list (list string)) :
  (2 <= length hs)%nat -> forallb clean hs = true ->
  forallb (fun r => (length hs <=? length r)%nat && forallb clean r) rs = true ->
  parseTSV (join LF (join TAB hs :: map (join TAB) rs)) = Ok (reloaded hs rs).
Proof.
  intros Hlen Hhs Hrs.
  assert (hs <> []) as Hne by (destruct hs; simpl in *; [lia|congruence]).
  assert (forallb (fun l => free_of 10 l && free_of 13 l)
            (join TAB hs :: map (join TAB) rs) = true) as Hfree.
  { simpl. rewrite (proj1 (row_line hs Hhs)). simpl.
    rewrite forallb_forall in *. intros l (r & <- & Hr)%in_map_iff.
    apply Hrs in Hr. apply andb_true_iff in Hr as [_ Hr]. apply (row_line r Hr). }
  assert (List.filter nonempty (join TAB hs :: map (join TAB) rs)
          = join TAB hs :: map (join TAB) rs) as Hfilter.
  { apply forallb_filter_id. simpl. rewrite (nonempty_join_tab hs Hlen). simpl.
    rewrite forallb_forall in *. intros l (r & <- & Hr)%in_map_iff.
    apply Hrs in Hr. apply andb_true_iff in Hr as [Hr%Nat.leb_le _].
    apply nonempty_join_tab. lia. }
  unfold parseTSV. rewrite split_lines_join by (congruence || assumption).
  rewrite Hfilter, (proj2 (row_line hs Hhs) Hne), parseRows_spec. simpl.
  unfold reloaded. do 2 f_equal. clear Hfree Hfilter.
  induction rs as [|r rs IH]; [reflexivity|]. simpl in Hrs |- *.
  apply andb_true_iff in Hrs as [[Hr Hc]%andb_true_iff Hrs].
  assert (r <> []) as Hrne by (apply Nat.leb_le in Hr; destruct r; simpl in *; [lia|congruence]).
  unfold wide_enough at 1. rewrite (proj2 (row_line r Hc) Hrne), Hr. simpl.
  rewrite (proj2 (row_line r Hc) Hrne). f_equal. now apply IH.
Qed.

End RoundTrips.

Section Records.
Import Terms.

Local Abbreviation put := (fun (rec : record) '(h, c) => <[h := c]> rec).

Lemma fold_put_other (l : list (string * string)) (m : record) k :
  ~ In k (map fst l) -> fold_left put l m !! k = m !! k.
Proof.
  revert m. induction l as [|[h c] l IH]; intros m Hk; simpl in *; [reflexivity|].
  rewrite IH by tauto. apply lookup_insert_ne. tauto.
Qed.

Lemma fold_put_value (P : string -> Prop) (l : list (string * string)) (m : record) :
  (forall k v, m !! k = Some v -> P v) ->
  (forall h c, In (h, c) l -> P c) ->
  forall k v, fold_left put l m !! k = Some v -> P v.
Proof.
  revert m. induction l as [|[h c] l IH]; intros m Hm Hl; simpl in *; [exact Hm|].
  apply IH; [|eauto]. intros k v.
  destruct (decide (h = k)) as [->|Hne].
  - rewrite lookup_insert_eq. intros [= <-]. eauto.
  - rewrite lookup_insert_ne by assumption. apply Hm.
Qed.

Lemma mkRec_lookup_at header : forall cols j h c,
  List.NoDup header -> header !! j = Some h -> cols !! j = Some c ->
  forall m, fold_left put (zip header cols) m !! h = Some c.
Proof.
  induction header as [|h0 header IH]; intros cols j h c Hnd Hh Hc m; [discriminate|].
  destruct cols as [|c0 cols]; [discriminate|]. inversion Hnd as [|? ? Hnot Hnd']; subst.
  destruct j as [|j]; simpl in *.
  - injection Hh as <-. injection Hc as <-. rewrite fold_put_other.
    + apply lookup_insert_eq.
    + intros (x & Hx & Hin)%in_map_iff. destruct x as [h' c'].
      apply Hnot. simpl in Hx. subst h'.
      apply list_elem_of_In, elem_of_zip_l in Hin. now apply list_elem_of_In.
  - eapply IH; eassumption.
Qed.

Lemma zip_app_r (header cols extra : list string) :
  (length header <= length cols)%nat -> zip header (cols ++ extra) = zip header cols.
Proof.
  revert cols. induction header as [|h header IH]; intros [|c cols] Hlen; simpl in *;
    try reflexivity; try lia.
  f_equal. apply IH. lia.
Qed.

Lemma mkRec_lookup (header cols : list string) j h c :
  List.NoDup header -> header !! j = Some h -> cols !! j = Some c ->
  mkRec header cols !! h = Some c.
Proof. intros Hnd Hh Hc. unfold mkRec. eapply mkRec_lookup_at; eassumption. Qed.


(** X2: what the loader never yields. No header token and no cell of a
    parsed table holds a tab or a line feed. *)
Theorem parseTSV_cells_free (tsv : string) (t : table) :
  parseTSV tsv = Ok t ->
  List.Forall (fun h => free_of 9 h = true /\ free_of 10 h = true) (header t)
  /\ (forall r k v, In r (rows t) -> r !! k = Some v ->
                    free_of 9 v = true /\ free_of 10 v = true).
Proof.
  unfold parseTSV.
  destruct (List.filter nonempty (split_lines tsv)) as [|line0 lines] eqn:E; [discriminate|].
  intros [= <-]. simpl.
  assert (forall l, In l (line0 :: lines) -> free_of 10 l = true) as Hfree.
  { intros l Hl. rewrite <- E in Hl. apply filter_In in Hl as [Hl _].
    pose proof (split_lines_free_len (String.length tsv) tsv (le_n _)) as H.
    rewrite List.Forall_forall in H. now apply H. }
  assert (forall l c, In l (line0 :: lines) -> In c (split_tab l) ->
                      free_of 9 c = true /\ free_of 10 c = true) as Hcell.
  { intros l c Hl Hc. split.
    - pose proof (split_tab_free l) as H. rewrite List.Forall_forall in H. now apply H.
    - pose proof (split_tab_forall _ l (Hfree l Hl)) as H.
      rewrite List.Forall_forall in H. now apply H. }
  split.
  - apply List.Forall_forall. intros h Hh. apply (Hcell line0); [now left|assumption].
  - intros r k v Hr. rewrite parseRows_spec in Hr. simpl in Hr.
    apply in_map_iff in Hr as (l & <- & Hl). apply filter_In in Hl as [Hl _].
    unfold mkRec. revert k v.
    apply (fold_put_value (fun v => free_of 9 v = true /\ free_of 10 v = true)).
    + intros k v. now rewrite lookup_empty.
    + intros h c Hin. apply (Hcell l); [now right|].
      apply list_elem_of_In, elem_of_zip_r in Hin. now apply list_elem_of_In.
Qed.

End Records.

(** ** The reconciled map as a whole *)

Section ReconciledMap.
Import Terms.
Variable Date_parse : string -> float.

Local Abbreviation epochToDate := (Convert.epochToDate Date_parse).
Local Abbreviation better := (Convert.better Date_parse).
Local Abbreviation consider := (Convert.consider Date_parse).
Local Abbreviation reconcile := (Convert.reconcile Date_parse).

Lemma consider_skipped m r : acceptedb r = false -> consider m r = m.
Proof.
  unfold acceptedb, Convert.consider. destruct (hasValidElems r); simpl; [|reflexivity].
  now intros ->.
Qed.

Lemma consider_taken m r :
  acceptedb r = true ->
  consider m r
  = if better r (JsMap.get (norad_of r) m) then JsMap.set (norad_of r) r m else m.
Proof.
  unfold acceptedb, Convert.consider. intros [-> ->]%andb_true_iff. reflexivity.
Qed.

Lemma accepted_acceptedb k r : accepted k r <-> acceptedb r = true /\ norad_of r = k.
Proof.
  unfold accepted, acceptedb. rewrite andb_true_iff. split.
  - intros (Hv & <- & Hk). tauto.
  - intros [[Hv Hk] <-]. tauto.
Qed.

Lemma keys_consider m r :
  JsMap.keys (consider m r)
  = if acceptedb r && fresh (JsMap.keys m) (norad_of r)
    then JsMap.keys m ++ [norad_of r] else JsMap.keys m.
Proof.
  destruct (acceptedb r) eqn:Ha; simpl.
  - rewrite (consider_taken m r Ha), fresh_keys.
    destruct (JsMap.get (norad_of r) m) as [w|] eqn:Hg.
    + destruct (better r (Some w)); [|reflexivity]. apply keys_set_present. congruence.
    + simpl. now apply keys_set_absent.
  - now rewrite consider_skipped.
Qed.

Lemma keys_fold_consider rows m :
  JsMap.keys (fold_left consider rows m)
  = JsMap.keys m
    ++ List.filter (fresh (JsMap.keys m))
         (first_occurrences (map norad_of (List.filter acceptedb rows))).
Proof.
  revert m. induction rows as [|r rows IH]; intros m; simpl.
  - now rewrite app_nil_r.
  - rewrite IH, keys_consider. destruct (acceptedb r) eqn:Ha; simpl; [|reflexivity].
    destruct (fresh (JsMap.keys m) (norad_of r)) eqn:Hf.
    + rewrite <- app_assoc. simpl. now rewrite filter_fresh_snoc.
    + f_equal. symmetry. apply filter_filter_implied. intros x Hx.
      destruct (String.eqb_spec x (norad_of r)) as [->|]; [congruence|reflexivity].
Qed.

Lemma first_occurrences_length (l : list string) :
  (length (first_occurrences l) <= length l)%nat.
Proof.
  induction l as [|x l IHl]; simpl; [lia|].
  pose proof (List.filter_length_le (fun y => negb (String.eqb y x)) (first_occurrences l)).
  lia.
Qed.

Lemma keys_reconcile (rows : list record) :
  JsMap.keys (reconcile rows)
  = first_occurrences (map norad_of (List.filter acceptedb rows)).
Proof.
  unfold Convert.reconcile. rewrite keys_fold_consider. simpl.
  apply forallb_filter_id. apply forallb_forall. reflexivity.
Qed.

Lemma NoDup_keys_reconcile (rows : list record) : List.NoDup (JsMap.keys (reconcile rows)).
Proof. rewrite keys_reconcile. apply NoDup_first_occurrences. Qed.

(** X3: the order of the reconciled map. Its keys are the keys of the
    accepted records, each once, in the order in which they are first
    met; so the object table has one row per distinct key, in that
    order, and never more rows than the input has records. *)
Theorem reconcile_keys (rows : list record) :
  JsMap.keys (reconcile rows)
  = first_occurrences (map norad_of (List.filter acceptedb rows))
  /\ List.NoDup (JsMap.keys (reconcile rows))
  /\ (length (reconcile rows) <= length rows)%nat.
Proof.
  split; [apply keys_reconcile|split; [apply NoDup_keys_reconcile|]].
  rewrite <- (length_map fst (reconcile rows)). fold (JsMap.keys (reconcile rows)).
  rewrite keys_reconcile. etransitivity; [apply first_occurrences_length|].
  rewrite length_map. apply List.filter_length_le.
Qed.

Lemma In_get_NoDup {V} k (v : V) m :
  List.NoDup (JsMap.keys m) -> In (k, v) m -> JsMap.get k m = Some v.
Proof.
  induction m as [|[k' v'] m IH]; simpl; [tauto|]. intros Hnd.
  inversion Hnd as [|? ? Hnot Hnd']; subst. intros [[= -> ->]|Hin].
  - now rewrite String.eqb_refl.
  - destruct (String.eqb_spec k k') as [->|]; [|auto].
    exfalso. apply Hnot. apply (in_map fst) in Hin. exact Hin.
Qed.

Lemma set_absent {V} k (v : V) m :
  JsMap.get k m = None -> JsMap.set k v m = m ++ [(k, v)].
Proof.
  induction m as [|[k' v'] m IH]; simpl; [reflexivity|].
  destruct (String.eqb k k'); [discriminate|]. intros H. now rewrite IH.
Qed.

Lemma get_snoc_other {V} k k' (v : V) m :
  k <> k' -> JsMap.get k (m ++ [(k', v)]) = JsMap.get k m.
Proof.
  intros Hne. induction m as [|[k0 v0] m IH]; simpl.
  - destruct (String.eqb_spec k k'); congruence.
  - now rewrite IH.
Qed.

(** Replaying a map of accepted records, each under its own key, onto
    a map that has none of the keys appends it. *)
Lemma fold_consider_values (m acc : list (string * record)) :
  List.NoDup (JsMap.keys m) ->
  (forall k r, In (k, r) m -> accepted k r /\ JsMap.get k acc = None) ->
  fold_left consider (JsMap.values m) acc = acc ++ m.
Proof.
  revert acc. induction m as [|[k r] m IH]; intros acc Hnd Hm; simpl.
  - now rewrite app_nil_r.
  - inversion Hnd as [|? ? Hnot Hnd']; subst.
    destruct (Hm k r (or_introl eq_refl)) as [Ha Hg].
    rewrite (consider_accepted Date_parse k acc r Ha), Hg. simpl.
    rewrite (set_absent _ _ _ Hg), IH; [now rewrite <- app_assoc|assumption|].
    intros k' r' Hin. destruct (Hm k' r' (or_intror Hin)) as [Ha' Hg']. split; [assumption|].
    rewrite get_snoc_other; [assumption|]. intros ->. apply Hnot.
    apply (in_map fst) in Hin. exact Hin.
Qed.

(** X4: reconciling the reconciled records again changes nothing. *)
Theorem reconcile_idempotent (rows : list record) :
  reconcile (JsMap.values (reconcile rows)) = reconcile rows.
Proof.
  unfold Convert.reconcile at 1. rewrite fold_consider_values; [reflexivity| |].
  - apply (NoDup_keys_reconcile rows).
  - intros k r Hin. split; [|reflexivity].
    apply (reconcile_entries Date_parse rows k r).
    apply In_get_NoDup; [apply (NoDup_keys_reconcile rows)|assumption].
Qed.

Lemma get_consider_key k m r :
  norad_of r = k ->
  JsMap.get k (consider m r)
  = if acceptedb r && better r (JsMap.get k m) then Some r else JsMap.get k m.
Proof.
  intros <-. destruct (acceptedb r) eqn:Ha; simpl.
  - rewrite (consider_taken m r Ha). destruct (better r _); [apply get_set_eq|reflexivity].
  - now rewrite consider_skipped.
Qed.

Lemma fold_consider_key k rows m1 m2 :
  JsMap.get k m1 = JsMap.get k m2 ->
  JsMap.get k (fold_left consider rows m1)
  = JsMap.get k (fold_left consider
                   (List.filter (fun r => String.eqb (norad_of r) k) rows) m2).
Proof.
  revert m1 m2. induction rows as [|r rows IH]; intros m1 m2 H; simpl; [assumption|].
  destruct (String.eqb_spec (norad_of r) k) as [Hk|Hk]; simpl.
  - apply IH. now rewrite !(get_consider_key k _ r Hk), H.
  - apply IH. now rewrite (consider_other Date_parse k m1 r Hk).
Qed.

(** X5: keys do not interfere. The champion of a key is decided by the
    records of that key alone. *)
Theorem reconcile_by_key (k : string) (rows : list record) :
  winner k (reconcile rows)
  = winner k (reconcile (List.filter (fun r => String.eqb (norad_of r) k) rows)).
Proof. unfold winner, Convert.reconcile. now apply fold_consider_key. Qed.

(** X6: the champion is a best record. It is an accepted record of the
    input stored under its own key, no accepted record of that key in
    the input is better than it, and a key has no champion exactly
    when the input has no accepted record of it. *)
Theorem champion_is_best (k : string) (rows : list record) :
  (forall w, winner k (reconcile rows) = Some w ->
             accepted k w /\ In w rows
             /\ forall a, accepted k a -> In a rows -> better a (Some w) = false)
  /\ (winner k (reconcile rows) = None <-> forall a, In a rows -> ~ accepted k a).
Proof.
  split.
  - intros w Hw. destruct (reconcile_entries Date_parse rows k w Hw) as [Ha Hin].
    split; [assumption|split; [assumption|]]. intros a Haa Hina.
    destruct (champion_unbeaten Date_parse k a rows Haa Hina) as (w' & Hw' & Hb).
    congruence.
  - split.
    + intros Hnone a Hin Ha.
      destruct (champion_unbeaten Date_parse k a rows Ha Hin) as (w & Hw & _). congruence.
    + intros Hno. destruct (winner k (reconcile rows)) as [w|] eqn:Hw; [|reflexivity].
      destruct (reconcile_entries Date_parse rows k w Hw) as [Ha Hin].
      now destruct (Hno w Hin).
Qed.

(** X7: a record without a key is left out. A record whose NoradId is
    missing, empty or blank changes nothing, wherever it stands. *)
Theorem keyless_record_is_inert (r : record) (before after : list record) :
  nonempty (norad_of r) = false ->
  reconcile (before ++ r :: after) = reconcile (before ++ after).
Proof.
  intros Hk. unfold Convert.reconcile. rewrite !fold_left_app. simpl.
  rewrite consider_skipped; [reflexivity|]. unfold acceptedb. rewrite Hk. apply andb_false_r.
Qed.

End ReconciledMap.

(** ** The order on records *)

Section RecordOrder.
Import Terms.
Variable Date_parse : string -> float.

Local Abbreviation epochToDate := (Convert.epochToDate Date_parse).
Local Abbreviation better := (Convert.better Date_parse).

Lemma is_nan_Prim2SF (d : float) : PrimFloat.is_nan d = false -> Prim2SF d <> S754_nan.
Proof.
  unfold Prim2SF. intros ->. destruct (is_zero d); [discriminate|].
  destruct (is_infinity d); [discriminate|].
  destruct (Z.frexp d) as [r ex]. destruct (shr_fexp _ _ _ _ _) as [sh e'].
  destruct (shr_m sh); discriminate.
Qed.

(** [epochToDate] is a Number to compare: finite or [-Infinity], never
    [NaN]. *)
Lemma epochToDate_not_nan (r : record) : Prim2SF (epochToDate r) <> S754_nan.
Proof.
  unfold Convert.epochToDate. destruct (Number_isFinite _) eqn:E; [|discriminate].
  apply is_nan_Prim2SF. unfold Number_isFinite, is_finite in E.
  apply negb_true_iff, orb_false_iff in E. tauto.
Qed.

Lemma compare_total (x y : float) :
  Prim2SF x <> S754_nan -> Prim2SF y <> S754_nan ->
  (x <? y)%float = true \/ (y <? x)%float = true \/ (x =? y)%float = true.
Proof.
  intros Hx Hy. rewrite !FloatAxioms.ltb_spec, FloatAxioms.eqb_spec. unfold SFltb, SFeqb.
  rewrite (SFcompare_swap (Prim2SF x) (Prim2SF y)).
  destruct (Prim2SF x) as [sx|sx| |sx mx ex], (Prim2SF y) as [sy|sy| |sy my ey];
    try congruence;
    match goal with |- context [SFcompare ?a ?b] => destruct (SFcompare a b) as [[]|] eqn:E end;
    simpl; auto; simpl in E; try discriminate;
    try (destruct sx; discriminate); try (destruct sy; discriminate).
Qed.

(** X8: [better] is a strict order on records, and any two records are
    comparable unless they tie: it is irreflexive and transitive, it
    never holds both ways, and when it holds neither way the two
    records have the same priority and equal parsed epochs. *)
Theorem better_strict_order (a b c : record) :
  better a (Some a) = false
  /\ (better a (Some b) = true -> better b (Some a) = false)
  /\ (better a (Some b) = true -> better b (Some c) = true -> better a (Some c) = true)
  /\ (better a (Some b) = false -> better b (Some a) = false ->
      priorityOf a = priorityOf b /\ (epochToDate a =? epochToDate b)%float = true).
Proof.
  split; [apply better_irrefl|split; [|split]].
  - intros Hab. apply (better_successor Date_parse b a b); [apply better_irrefl|assumption].
  - intros Hab Hbc. apply (better_spec Date_parse) in Hab, Hbc. apply (better_spec Date_parse).
    destruct Hab as [Hab|[Hab Eab]], Hbc as [Hbc|[Hbc Ebc]]; try (left; lia).
    right. split; [lia|]. unfold gt in *. exact (ltb_trans _ _ _ Ebc Eab).
  - intros Hab Hba.
    assert (priorityOf a = priorityOf b) as Hp.
    { destruct (Z.lt_trichotomy (priorityOf a) (priorityOf b)) as [H|[H|H]]; [|assumption|].
      - destruct (better_higher_priority Date_parse a b H). congruence.
      - destruct (better_higher_priority Date_parse b a H). congruence. }
    split; [assumption|].
    rewrite (better_same_priority Date_parse a b Hp) in Hab.
    rewrite (better_same_priority Date_parse b a (eq_sym Hp)) in Hba. unfold gt in *.
    destruct (compare_total (epochToDate a) (epochToDate b)
                (epochToDate_not_nan a) (epochToDate_not_nan b)) as [H|[H|H]]; congruence.
Qed.

End RecordOrder.

(** ** Validity *)

Section Validity.
Import Terms.

(** X9: a record that lacks an element column is never valid. Validity
    needs all of SMA, Ecc, Inc, RAAN, ArgP, MeanAnom and Epoch to be
    present in the record. *)
Theorem valid_has_columns (r : record) :
  hasValidElems r = true ->
  List.Forall (fun k => is_Some (r !! k))
    ["SMA"; "Ecc"; "Inc"; "RAAN"; "ArgP"; "MeanAnom"; "Epoch"].
Proof.
  unfold hasValidElems. simpl forallb. rewrite !andb_true_iff.
  intros (((Hsma & _) & Hinc & Hecc & Hraan & Hargp & Hmanom & _) & Hepoch).
  repeat constructor;
    match goal with |- is_Some (r !! ?k) => destruct (r !! k) eqn:E; [eauto|] end;
    simpl in *; try discriminate.
Qed.

End Validity.

(** ** The written tables *)

Section WrittenTables.
Import Terms.
Variable Date_parse : string -> float.
Variable toUpperCase : string -> string.

Local Abbreviation reconcile := (Convert.reconcile Date_parse).
Local Abbreviation buildIdToName := (Convert.buildIdToName toUpperCase).
Local Abbreviation outCols := (Convert.outCols toUpperCase).
Local Abbreviation outRows := (Convert.outRows toUpperCase).
Local Abbreviation nodebOut := (Convert.nodebOut Date_parse toUpperCase).
Local Abbreviation dsOut := (Convert.dsOut toUpperCase).
Local Abbreviation main := (Convert.main Date_parse toUpperCase).

(** X10: the object table can be loaded again. When no emitted column
    holds a tab, a line feed or a carriage return, [parseTSV] reads the
    written table back as one record per reconciled object, in order,
    under the 25 names of the header; each record holds under a name
    the column written at the name's position. *)
Theorem object_table_reloads (rso : table) :
  forallb (fun r => forallb clean (outCols r)) (JsMap.values (reconcile (rows rso))) = true ->
  parseTSV (nodebOut rso)
  = Ok (reloaded headerOut (map outCols (JsMap.values (reconcile (rows rso)))))
  /\ (forall r j h c, headerOut !! j = Some h -> outCols r !! j = Some c ->
                      mkRec headerOut (outCols r) !! h = Some c).
Proof.
  intros H. split.
  - unfold Convert.nodebOut, Convert.outRows.
    rewrite <- (map_map outCols (join TAB)). apply parseTSV_join.
    + simpl. lia.
    + vm_compute. reflexivity.
    + rewrite forallb_forall in *. intros cols (r & <- & Hr)%in_map_iff.
      now rewrite (H r Hr).
  - intros r j h c. apply mkRec_lookup.
    unfold headerOut. repeat (constructor; [simpl; intuition discriminate|]). constructor.
Qed.

(** X11: the descriptor table can be loaded again. When no id and no
    name holds a tab, a line feed or a carriage return, [parseTSV]
    reads the written table back as one record per descriptor, with the
    id under [Code] and the name under [Name]. *)
Theorem descriptor_table_reloads (ds : table) :
  forallb (fun '(id, name) => clean id && clean name) (buildIdToName (rows ds)) = true ->
  parseTSV (dsOut ds)
  = Ok (Table ["Code"; "Name"]
          (map (fun '(id, name) => {[ "Code" := id; "Name" := name ]})
               (buildIdToName (rows ds)))).
Proof.
  intros H. unfold Convert.dsOut, dsLines.
  set (m := buildIdToName (rows ds)) in *.
  replace (map (fun '(id, name) => (id ++ TAB ++ name)%string) m)
    with (map (join TAB) (map (fun '(id, name) => [id; name]) m))
    by (rewrite map_map; apply map_ext; now intros [id name]).
  change ("Code" ++ TAB ++ "Name")%string with (join TAB ["Code"; "Name"]).
  rewrite parseTSV_join.
  - unfold reloaded. do 2 f_equal. rewrite map_map. apply map_ext. intros [id name].
    unfold mkRec. simpl. apply map_eq. intros k.
    destruct (decide (k = "Code")) as [->|];
      [now rewrite lookup_insert_ne, !lookup_insert_eq by discriminate|].
    destruct (decide (k = "Name")) as [->|].
    + now rewrite lookup_insert_eq, lookup_insert_ne, lookup_singleton_eq by discriminate.
    + now rewrite !lookup_insert_ne, lookup_singleton_ne, lookup_empty by congruence.
  - simpl. lia.
  - vm_compute. reflexivity.
  - rewrite forallb_forall in *. intros cols ([id name] & <- & Hr)%in_map_iff.
    specialize (H _ Hr). simpl in *. apply andb_true_iff in H as [-> ->]. reflexivity.
Qed.

(** X12: what [main] touches. A run that succeeds writes the two tables,
    each beginning with its header line, and leaves every other file,
    the source file among them, as it was. *)
Theorem main_writes_two_files (fs fs1 : gmap string string) :
  main fs = Ok fs1 ->
  (forall path, path <> DS_FILE -> path <> NODEB_FILE -> fs1 !! path = fs !! path)
  /\ fs1 !! SRC_FILE = fs !! SRC_FILE
  /\ (exists body, fs1 !! DS_FILE = Some (join LF (join TAB ["Code"; "Name"] :: body)))
  /\ (exists body, fs1 !! NODEB_FILE = Some (join LF (join TAB headerOut :: body))).
Proof.
  unfold Convert.main. destruct (fs !! SRC_FILE) as [js|] eqn:Hsrc; [|discriminate].
  destruct (extractBacktick "dataSources" js) as [t1|]; [|discriminate].
  destruct (extractBacktick "intactRso" js) as [t2|]; [|discriminate].
  unfold mbind, result_bind.
  destruct (parseTSV t1) as [ds|]; [|discriminate].
  destruct (parseTSV t2) as [rso|]; [|discriminate].
  intros [= <-]. split; [|split; [|split]].
  - intros path H1 H2. now rewrite !lookup_insert_ne by congruence.
  - now rewrite !lookup_insert_ne by discriminate.
  - eexists. rewrite lookup_insert_ne, lookup_insert_eq by discriminate.
    unfold Convert.dsOut, dsLines. reflexivity.
  - eexists. rewrite lookup_insert_eq. unfold Convert.nodebOut. reflexivity.
Qed.

End WrittenTables.

(** ** White space and markers *)

Section Trimming.
Import Terms.

Lemma trimStart_blank_app pre s : blank pre = true -> trimStart (pre ++ s)%string = trimStart s.
Proof.
  induction pre as [|c pre IH]; simpl; [reflexivity|].
  intros [-> H]%andb_true_iff. auto.
Qed.

Lemma trimEnd_blank post : blank post = true -> trimEnd post = EmptyString.
Proof.
  induction post as [|c post IH]; simpl; [reflexivity|].
  intros [-> H]%andb_true_iff. now rewrite IH.
Qed.

Lemma trimEnd_app_blank s post : blank post = true -> trimEnd (s ++ post)%string = trimEnd s.
Proof.
  intros H. induction s as [|c s IH]; simpl; [now apply trimEnd_blank|]. now rewrite IH.
Qed.

Lemma trimStart_shape s :
  trimStart s = EmptyString
  \/ exists c t, trimStart s = String c t /\ is_space c = false.
Proof.
  induction s as [|c s IH]; simpl; [now left|].
  destruct (is_space c) eqn:E; [exact IH|right; eauto].
Qed.

Lemma trimStart_all_blank post : blank post = true -> trimStart post = EmptyString.
Proof.
  induction post as [|c post IH]; simpl; [reflexivity|].
  intros [-> H]%andb_true_iff. auto.
Qed.

(** [trim] ignores white space on either side. *)
Lemma trim_padded pre s post :
  blank pre = true -> blank post = true -> trim (pre ++ s ++ post)%string = trim s.
Proof.
  intros Hpre Hpost. unfold trim. rewrite (trimStart_blank_app _ _ Hpre).
  induction s as [|c s IH]; simpl.
  - change (EmptyString ++ post)%string with post.
    now rewrite (trimStart_all_blank _ Hpost).
  - destruct (is_space c); [exact IH|].
    change (String c (s ++ post))%string with (String c s ++ post)%string.
    now apply trimEnd_app_blank.
Qed.

Lemma trimEnd_idem s : trimEnd (trimEnd s) = trimEnd s.
Proof.
  induction s as [|c s IH]; simpl; [reflexivity|].
  destruct (trimEnd s) as [|c' t] eqn:E.
  - destruct (is_space c) eqn:Ec; simpl; [reflexivity|]. now rewrite Ec.
  - simpl in *. now rewrite IH.
Qed.

Lemma trimEnd_keeps_head c s :
  is_space c = false -> exists t, trimEnd (String c s) = String c t.
Proof.
  intros Hc. simpl. destruct (trimEnd s); [rewrite Hc|]; eauto.
Qed.

(** [trim] leaves trimmed text as it is. *)
Lemma trim_idem s : trim (trim s) = trim s.
Proof.
  unfold trim. destruct (trimStart_shape s) as [->|(c & t & -> & Hc)]; [reflexivity|].
  destruct (trimEnd_keeps_head c t Hc) as (t' & E). rewrite E. simpl trimStart.
  rewrite Hc, <- E. apply trimEnd_idem.
Qed.

Lemma trimStart_forall (q : ascii -> bool) s :
  string_forallb q s = true -> string_forallb q (trimStart s) = true.
Proof.
  induction s as [|c s IH]; simpl; [reflexivity|].
  intros H. destruct (is_space c); [|exact H]. apply andb_true_iff in H as [_ H]. auto.
Qed.

Lemma trimEnd_forall (q : ascii -> bool) s :
  string_forallb q s = true -> string_forallb q (trimEnd s) = true.
Proof.
  induction s as [|c s IH]; simpl; [reflexivity|].
  intros [Hc H]%andb_true_iff. specialize (IH H).
  destruct (trimEnd s); [destruct (is_space c)|]; simpl in *; now rewrite ?Hc.
Qed.

(** What holds of every character of a text holds of the trimmed text. *)
Lemma trim_forall (q : ascii -> bool) s :
  string_forallb q s = true -> string_forallb q (trim s) = true.
Proof. intros H. now apply trimEnd_forall, trimStart_forall. Qed.

End Trimming.

Section Markers.
Import Terms.

Lemma append_cons c a b : (String c a ++ b)%string = String c (a ++ b)%string.
Proof. reflexivity. Qed.

Lemma length_append a b :
  String.length (a ++ b)%string = (String.length a + String.length b)%nat.
Proof. induction a as [|c a IH]; [reflexivity|]. rewrite append_cons. simpl. now rewrite IH. Qed.

Lemma append_assoc a b c : ((a ++ b) ++ c)%string = (a ++ b ++ c)%string.
Proof. induction a as [|x a IH]; [reflexivity|]. now rewrite !append_cons, IH. Qed.

Lemma take_drop_string n s : (take_string n s ++ drop_string n s)%string = s.
Proof.
  revert s. induction n as [|n IH]; intros [|c s]; simpl; try reflexivity.
  now rewrite append_cons, IH.
Qed.

Lemma drop_string_add a b s : drop_string (a + b) s = drop_string b (drop_string a s).
Proof.
  revert s. induction a as [|a IH]; intros s; simpl; [reflexivity|].
  destruct s as [|c s]; [now destruct b|apply IH].
Qed.

Lemma drop_string_app p s : drop_string (String.length p) (p ++ s)%string = s.
Proof. induction p as [|c p IH]; simpl; auto. Qed.

Lemma take_string_app p s : take_string (String.length p) (p ++ s)%string = p.
Proof. induction p as [|c p IH]; simpl; [now destruct s|now rewrite IH]. Qed.

Lemma prefix_split p s :
  String.prefix p s = true -> s = (p ++ drop_string (String.length p) s)%string.
Proof.
  revert s. induction p as [|c p IH]; intros s; [reflexivity|].
  destruct s as [|c' s]; simpl; [discriminate|].
  destruct (Ascii.ascii_dec c c') as [->|]; [|discriminate]. intros H.
  now rewrite append_cons, <- IH.
Qed.

Lemma prefix_nil s : String.prefix EmptyString s = true.
Proof. now destruct s. Qed.

Lemma prefix_app p s : String.prefix p (p ++ s)%string = true.
Proof.
  induction p as [|c p IH]; [apply prefix_nil|].
  rewrite append_cons. simpl. now destruct (Ascii.ascii_dec c c).
Qed.

Lemma prefix_app_long p s t :
  (String.length p <= String.length s)%nat ->
  String.prefix p (s ++ t)%string = String.prefix p s.
Proof.
  revert s. induction p as [|c p IH]; intros s Hlen; [now rewrite !prefix_nil|].
  destruct s as [|c' s]; simpl in *; [lia|].
  destruct (Ascii.ascii_dec c c'); [apply IH; lia|reflexivity].
Qed.

(** Where [indexOf] finds the pattern, the pattern stands. *)
Lemma indexOf_at_found pat text i j :
  indexOf_at pat text i = Some j ->
  exists n, j = (i + n)%nat
            /\ text = (take_string n text ++ pat
                       ++ drop_string (String.length pat) (drop_string n text))%string.
Proof.
  revert i. induction text as [|c text IH]; intros i; cbn [indexOf_at].
  - destruct (String.prefix pat EmptyString) eqn:E; [|discriminate]. intros [= <-].
    exists O. split; [lia|]. cbn [take_string drop_string]. now apply prefix_split.
  - destruct (String.prefix pat (String c text)) eqn:E.
    + intros [= <-]. exists O. split; [lia|]. cbn [take_string drop_string].
      now apply prefix_split.
    + intros H. destruct (IH _ H) as (n & -> & Ht). exists (S n). split; [lia|].
      cbn [take_string drop_string].
      now rewrite (append_cons c (take_string n text)), <- Ht.
Qed.

Lemma code_inj c c' : code c = code c' -> c = c'.
Proof.
  unfold code. intros H%N2Z.inj.
  now rewrite <- (ascii_N_embedding c), <- (ascii_N_embedding c'), H.
Qed.

Lemma prefix_backtick c text : String.prefix "`" (String c text) = (code c =? 96).
Proof.
  cbn [String.prefix]. destruct (Ascii.ascii_dec "`" c) as [<-|Hne].
  - now rewrite prefix_nil.
  - symmetry. apply Z.eqb_neq. intros H. apply Hne. now apply code_inj.
Qed.

(** Before the first backtick there is none. *)
Lemma indexOf_at_backtick text i j :
  indexOf_at "`" text i = Some j ->
  exists n, j = (i + n)%nat /\ free_of 96 (take_string n text) = true
            /\ text = (take_string n text ++ "`" ++ drop_string (S n) text)%string.
Proof.
  revert i. induction text as [|c text IH]; intros i; [discriminate|].
  cbn [indexOf_at]. rewrite prefix_backtick. destruct (code c =? 96) eqn:Hc.
  - intros [= <-]. exists O. split; [lia|split; [reflexivity|]].
    apply Z.eqb_eq in Hc. now rewrite (code_inj c "`" Hc).
  - intros H. destruct (IH _ H) as (n & -> & Hfree & Ht). exists (S n).
    split; [lia|].
    change (drop_string (S (S n)) (String c text)) with (drop_string (S n) text).
    change (take_string (S n) (String c text)) with (String c (take_string n text)).
    rewrite (append_cons c (take_string n text)), <- Ht.
    split; [|reflexivity]. unfold free_of in *. cbn [string_forallb].
    now rewrite Hfree, Hc.
Qed.

Lemma indexOf_at_backtick_first body rest i :
  free_of 96 body = true ->
  indexOf_at "`" (body ++ "`" ++ rest)%string i = Some (i + String.length body)%nat.
Proof.
  unfold free_of. revert i. induction body as [|c body IH]; intros i.
  - intros _. change (EmptyString ++ "`" ++ rest)%string with (String "`" rest).
    cbn [indexOf_at]. rewrite prefix_backtick. simpl. f_equal. lia.
  - cbn [string_forallb]. intros [Hc H]%andb_true_iff. apply negb_true_iff in Hc.
    rewrite append_cons. cbn [indexOf_at]. rewrite prefix_backtick, Hc, IH by assumption.
    f_equal. simpl. lia.
Qed.

Lemma indexOf_at_here pat text i :
  String.prefix pat text = true -> indexOf_at pat text i = Some i.
Proof. intros H. destruct text; cbn [indexOf_at]; now rewrite H. Qed.

(** With no occurrence before, the pattern is found where it stands. *)
Lemma indexOf_at_first pre m0 rest i :
  indexOf_at (m0 ++ "`") (pre ++ m0)%string i = None ->
  indexOf_at (m0 ++ "`") (pre ++ (m0 ++ "`") ++ rest)%string i
  = Some (i + String.length pre)%nat.
Proof.
  revert i. induction pre as [|c pre IH]; intros i.
  - intros _. change (EmptyString ++ (m0 ++ "`") ++ rest)%string with ((m0 ++ "`") ++ rest)%string.
    rewrite indexOf_at_here by apply prefix_app. f_equal. simpl. lia.
  - change (String c pre ++ m0)%string with (String c (pre ++ m0))%string.
    change (String c pre ++ (m0 ++ "`") ++ rest)%string
      with (String c (pre ++ (m0 ++ "`") ++ rest))%string.
    cbn [indexOf_at].
    destruct (String.prefix (m0 ++ "`") (String c (pre ++ m0))) eqn:E; [discriminate|].
    intros H.
    assert (String.prefix (m0 ++ "`") (String c (pre ++ (m0 ++ "`") ++ rest)) = false) as ->.
    { replace (String c (pre ++ (m0 ++ "`") ++ rest))%string
        with (String c (pre ++ m0) ++ ("`" ++ rest))%string.
      - rewrite prefix_app_long; [exact E|].
        cbn [String.length]. rewrite !length_append. simpl. lia.
      - rewrite append_cons. f_equal. now rewrite !append_assoc. }
    rewrite (IH _ H). f_equal. simpl. lia.
Qed.

End Markers.

Section Extraction.
Import Terms.

Lemma marker_declaration name :
  ("var " ++ name ++ " = `")%string = (declaration name ++ "`")%string.
Proof. unfold declaration. now rewrite !append_assoc. Qed.

(** X13: what [extractBacktick] returns. A returned text is the trimmed
    text that stands between an occurrence of the marker and the next
    backtick; it holds no backtick and has no white space at its ends. *)
Theorem extractBacktick_sound (name text s : string) :
  extractBacktick name text = Ok s ->
  (exists pre body rest,
      text = (pre ++ ("var " ++ name ++ " = `") ++ body ++ "`" ++ rest)%string
      /\ free_of 96 body = true /\ s = trim body)
  /\ free_of 96 s = true /\ trim s = s.
Proof.
  unfold extractBacktick, indexOf. cbv zeta.
  remember ("var " ++ name ++ " = `")%string as marker eqn:Hm. clear Hm.
  destruct (indexOf_at marker (drop_string 0 text) 0) as [start|] eqn:Hs; [|discriminate].
  destruct (indexOf_at "`" (drop_string (start + String.length marker) text)
              (start + String.length marker)) as [e|] eqn:He; [|discriminate].
  intros [= <-]. simpl drop_string in Hs.
  destruct (indexOf_at_found _ _ _ _ Hs) as (n & -> & Ht).
  change (0 + n)%nat with n in *.
  unfold slice. rewrite drop_string_add in He |- *.
  set (tail := drop_string (String.length marker) (drop_string n text)) in *.
  destruct (indexOf_at_backtick _ _ _ He) as (k & -> & Hfree & Htail).
  replace (n + String.length marker + k - (n + String.length marker))%nat
    with k by lia.
  assert (free_of 96 (trim (take_string k tail)) = true) as Hs'
    by (now apply trim_forall).
  split; [|split; [exact Hs'|apply trim_idem]].
  exists (take_string n text), (take_string k tail), (drop_string (S k) tail).
  split; [|split; [assumption|reflexivity]]. now rewrite <- Htail.
Qed.

(** X14: [extractBacktick] reads a declaration. When the marker does not
    occur in the text before the declaration and the body holds no
    backtick, the body is returned, trimmed. *)
Theorem extractBacktick_reads (name pre body rest : string) :
  includes ("var " ++ name ++ " = `") (pre ++ declaration name) = false ->
  free_of 96 body = true ->
  extractBacktick name (pre ++ ("var " ++ name ++ " = `") ++ body ++ "`" ++ rest)
  = Ok (trim body).
Proof.
  unfold includes, extractBacktick, indexOf. rewrite !marker_declaration.
  cbn [drop_string]. intros Hpre Hbody.
  destruct (indexOf_at (declaration name ++ "`") (pre ++ declaration name) 0) eqn:E;
    [discriminate|]. clear Hpre.
  rewrite (indexOf_at_first pre (declaration name) _ 0 E). cbn [Nat.add].
  set (marker := (declaration name ++ "`")%string).
  rewrite drop_string_add, drop_string_app, drop_string_app.
  rewrite (indexOf_at_backtick_first body rest _ Hbody).
  unfold slice. rewrite drop_string_add, !drop_string_app.
  replace (String.length pre + String.length marker + String.length body
           - (String.length pre + String.length marker))%nat
    with (String.length body) by lia.
  now rewrite take_string_app.
Qed.

End Extraction.

Section Normalisation.
Import Terms.
Variable toUpperCase : string -> string.

Local Abbreviation mapOrbitType := (Convert.mapOrbitType toUpperCase).

(** X15: the orbit class. [mapOrbitType] yields one of LEO, MEO, GEO, HEO
    and the empty string, and white space around the letter does not
    change the class. *)
Theorem mapOrbitType_classes (pre ch post : string) :
  blank pre = true -> blank post = true ->
  mapOrbitType (pre ++ ch ++ post) = mapOrbitType ch
  /\ In (mapOrbitType ch) ["LEO"; "MEO"; "GEO"; "HEO"; ""].
Proof.
  intros Hpre Hpost. unfold Convert.mapOrbitType. rewrite (trim_padded _ _ _ Hpre Hpost).
  split; [reflexivity|].
  repeat match goal with |- context [if ?b then _ else _] => destruct b end;
    simpl; tauto.
Qed.

(** X16: keys are compared without the white space around them. Padding
    the NoradId of an object record or the DataSourceId of a record
    with white space changes neither the key under which the record is
    reconciled, nor the priority of its source, nor the id of a
    descriptor. *)
Theorem padding_is_ignored (r : record) (pre id post : string) :
  blank pre = true -> blank post = true ->
  norad_of (<["NoradId" := (pre ++ id ++ post)%string]> r) = norad_of (<["NoradId" := id]> r)
  /\ sourceIndex (<["DataSourceId" := (pre ++ id ++ post)%string]> r)
     = sourceIndex (<["DataSourceId" := id]> r)
  /\ idOf (<["DataSourceId" := (pre ++ id ++ post)%string]> r)
     = idOf (<["DataSourceId" := id]> r).
Proof.
  intros Hpre Hpost. unfold norad_of, sourceIndex, idOf.
  rewrite !lookup_insert_eq. simpl. now rewrite !(trim_padded _ _ _ Hpre Hpost).
Qed.

End Normalisation.

(** ** The CelesTrak rows, continued *)

Section CelestrakMore.
Import Terms Celestrak.
Variable Math_cbrt : float -> float.

Local Abbreviation smaFromMeanMotionRevPerDay :=
  (Celestrak.smaFromMeanMotionRevPerDay Math_cbrt).
Local Abbreviation cols := (Celestrak.cols Math_cbrt).
Local Abbreviation colTexts := (Celestrak.colTexts Math_cbrt).
Local Abbreviation rowFromCelestrak := (Celestrak.rowFromCelestrak Math_cbrt).

Lemma nonempty_append a b : nonempty (a ++ b)%string = nonempty a || nonempty b.
Proof. now destruct a. Qed.

Lemma nonempty_decimal_go fuel z acc :
  nonempty acc = true -> nonempty (decimal_go fuel z acc) = true.
Proof.
  revert z acc. induction fuel as [|fuel IH]; intros z acc H; simpl; [assumption|].
  destruct (z <? 10); [reflexivity|]. now apply IH.
Qed.

Lemma nonempty_decimal z : nonempty (decimal z) = true.
Proof.
  unfold decimal. simpl. destruct (z <? 10); [reflexivity|]. now apply nonempty_decimal_go.
Qed.

Lemma nonempty_format_digits n k ds :
  nonempty ds = true -> nonempty (format_digits n k ds) = true.
Proof.
  intros H. unfold format_digits.
  repeat match goal with |- context [if ?b then _ else _] => destruct b end;
    rewrite ?nonempty_append, ?H; try reflexivity;
    rewrite ?orb_true_r; try reflexivity; now destruct (take_string _ ds).
Qed.

(** The text of a Number is never empty. *)
Lemma nonempty_NumberToString x : nonempty (NumberToString x) = true.
Proof.
  unfold NumberToString. destruct (Prim2SF x) as [sg|sg| |sg m e]; try reflexivity.
  - now destruct sg.
  - destruct (decimal_digits (Zpos m) e) as [[n k] s].
    rewrite nonempty_append, (nonempty_format_digits n k _ (nonempty_decimal s)).
    apply orb_true_r.
Qed.

Lemma literal_not_tab c : literal_char c = true -> negb (code c =? 9) = true.
Proof.
  destruct (code c =? 9) eqn:E; [|reflexivity]. apply Z.eqb_eq in E.
  unfold literal_char, plain_char, is_digit. now rewrite E.
Qed.

(** The text of a Number holds no tab. *)
Lemma tab_free_NumberToString x : free_of 9 (NumberToString x) = true.
Proof.
  pose proof (NumberToString_shape x) as H.
  destruct (Prim2SF x) as [sg|sg| |sg m e]; try (rewrite H; reflexivity).
  - rewrite H. now destruct sg.
  - destruct H as [H _]. now apply (string_forallb_weaken literal_char _ _ literal_not_tab).
Qed.

Lemma number_column_text x : joinText (colValue (VNum x)) = NumberToString x.
Proof. unfold colValue. now destruct (Number_isFinite x). Qed.

(** X17: the SMA column. It is empty exactly when the mean motion, as a
    Number, is not finite or not above zero; otherwise it is the text
    of a Number. *)
Theorem sma_column_empty (nRevPerDay : value) :
  joinText (colValue (smaFromMeanMotionRevPerDay nRevPerDay)) = ""
  <-> Number_isFinite (ToNumber nRevPerDay) = false
      \/ (ToNumber nRevPerDay <=? 0)%float = true.
Proof.
  unfold Celestrak.smaFromMeanMotionRevPerDay.
  destruct (Number_isFinite (ToNumber nRevPerDay)) eqn:Ef;
    destruct (ToNumber nRevPerDay <=? 0)%float eqn:El; cbn [negb orb];
    try (split; [intros _|reflexivity]; tauto).
  rewrite number_column_text. split; [|intros [H|H]; discriminate].
  intros H. pose proof (nonempty_NumberToString
    (Math_cbrt (MU_EARTH / (ToNumber nRevPerDay * 2 * Math_PI / 86400
                            * (ToNumber nRevPerDay * 2 * Math_PI / 86400)))%float)) as Hn.
  rewrite H in Hn. discriminate.
Qed.

(** X18: angles that are missing. When the input, as a Number, is [NaN]
    or a zero (a missing field, [null], an empty or non-numeric string)
    [deg2rad] is 0, and the column reads [0]. *)
Theorem deg2rad_missing (d : value) :
  ToBoolean (VNum (ToNumber d)) = false ->
  deg2rad d = 0%float /\ joinText (colValue (VNum (deg2rad d))) = "0".
Proof.
  intros H. unfold deg2rad, or_else. rewrite H. split; vm_compute; reflexivity.
Qed.

(** X19: the shape of a row. A row has 25 columns, as the header has, the
    first being [USSTRATCOM]; when the name, the two ids and the epoch
    hold no tab, splitting the row at its tabs gives the 25 columns
    back. *)
Theorem row_columns (obj : gmap string value) :
  forallb (fun i => free_of 9 (nth i (colTexts obj) "")) [1; 3; 4; 18]%nat = true ->
  split_tab (rowFromCelestrak obj) = colTexts obj
  /\ length (colTexts obj) = length Convert.headerOut
  /\ colTexts obj !! 0%nat = Some "USSTRATCOM".
Proof.
  intros H. split; [|split; reflexivity].
  unfold Celestrak.rowFromCelestrak. apply split_tab_join; [discriminate|].
  simpl in H. rewrite !andb_true_iff in H. destruct H as (H1 & H3 & H4 & H18 & _).
  unfold Celestrak.colTexts, Celestrak.cols in *. cbn [map forallb nth] in *.
  change (joinText (colValue (VStr ?s))) with s in *.
  rewrite H1, H3, H4, H18.
  rewrite !number_column_text, !tab_free_NumberToString.
  assert (free_of 9 (joinText (colValue (smaFromMeanMotionRevPerDay
                                           (prop obj "MEAN_MOTION")))) = true) as ->.
  { unfold Celestrak.smaFromMeanMotionRevPerDay. destruct (negb _ || _); [reflexivity|].
    rewrite number_column_text. apply tab_free_NumberToString. }
  assert (free_of 9 (joinText (colValue (toNum (prop obj "ECCENTRICITY")))) = true) as ->.
  { unfold toNum. destruct (Number_isFinite _); [|reflexivity].
    rewrite number_column_text. apply tab_free_NumberToString. }
  reflexivity.
Qed.

End CelestrakMore.

(** ** Fetching the CelesTrak groups *)

Section Escaping.
Import Terms CelestrakMain.

Lemma hex_digit_unreserved d : 0 <= d < 16 -> unreserved (hex_digit d) = true.
Proof.
  intros Hd.
  assert (forallb (fun n => unreserved (hex_digit (Z.of_nat n))) (seq 0 16) = true) as H
    by (vm_compute; reflexivity).
  rewrite forallb_forall in H. specialize (H (Z.to_nat d)).
  rewrite Z2Nat.id in H by lia. apply H, in_seq. lia.
Qed.

Lemma code_range c : 0 <= code c < 256.
Proof.
  unfold code. pose proof (N_ascii_bounded c) as H. lia.
Qed.

Lemma percent_safe b : 0 <= b < 256 -> string_forallb url_safe (percent b) = true.
Proof.
  intros Hb. unfold percent. cbn [string_forallb].
  unfold url_safe at 2 3.
  rewrite !hex_digit_unreserved; [reflexivity| |].
  - apply Z.mod_pos_bound. lia.
  - split; [apply Z.div_pos; lia|apply Z.div_lt_upper_bound; lia].
Qed.

(** What is escaped is safe in a URL: every character of
    [encodeURIComponent s] is unreserved or a percent sign. *)
Lemma encodeURIComponent_safe (s : string) :
  string_forallb url_safe (encodeURIComponent s) = true.
Proof.
  induction s as [|c s IH]; [reflexivity|].
  cbn [encodeURIComponent]. cbv zeta. rewrite string_forallb_app, IH, andb_true_r.
  pose proof (code_range c) as Hc.
  destruct (unreserved c) eqn:Eu.
  - cbn [string_forallb]. unfold url_safe. now rewrite Eu.
  - destruct (code c <? 128) eqn:El.
    + apply percent_safe. lia.
    + apply Z.ltb_ge in El. rewrite string_forallb_app, !percent_safe; [reflexivity| |].
      * pose proof (Z.mod_pos_bound (code c) 64). lia.
      * assert (code c / 64 < 4) by (apply Z.div_lt_upper_bound; lia).
        assert (0 <= code c / 64) by (apply Z.div_pos; lia). lia.
Qed.

Lemma encodeURIComponent_plain (s : string) :
  string_forallb unreserved s = true -> encodeURIComponent s = s.
Proof.
  induction s as [|c s IH]; [reflexivity|].
  cbn [string_forallb encodeURIComponent]. cbv zeta. intros H.
  apply andb_true_iff in H as [Hc Hs]. rewrite Hc, (IH Hs). reflexivity.
Qed.

(** X20: the URL of a debris group. A group name of letters, digits and
    other unreserved characters is put into the query as it is. *)
Theorem debrisUrl_plain (g : string) :
  string_forallb unreserved g = true ->
  debrisUrl g
  = ("https://celestrak.org/NORAD/elements/gp.php?GROUP=" ++ g ++ "&FORMAT=json")%string.
Proof. intros H. unfold debrisUrl. now rewrite encodeURIComponent_plain. Qed.

End Escaping.

Section Fetching.
Import Terms CelestrakMain.
Variable Math_cbrt : float -> float.
Variable fetch : string -> result response.

Local Abbreviation fetchJson := (CelestrakMain.fetchJson fetch).
Local Abbreviation fetchGroup := (CelestrakMain.fetchGroup fetch).
Local Abbreviation lines := (CelestrakMain.lines Math_cbrt).

Lemma fold_fetchGroup gs d w :
  fold_left fetchGroup gs (d, w)
  = (d ++ flat_map (fetched fetch) gs, w ++ flat_map (skipped fetch) gs).
Proof.
  revert d w. induction gs as [|g gs IH]; intros d w.
  - simpl. now rewrite !app_nil_r.
  - cbn [fold_left flat_map].
    replace (CelestrakMain.fetchGroup fetch (d, w) g)
      with (d ++ fetched fetch g, w ++ skipped fetch g).
    + now rewrite IH, <- !app_assoc.
    + unfold CelestrakMain.fetchGroup, fetched, skipped.
      destruct (fetchJson (debrisUrl g)) as [arr|msg]; now rewrite app_nil_r.
Qed.




End Fetching.

(** ** The loader and the emitters, end to end *)

Section EndToEnd.
Import Terms.

(** X24: the loader reads back what the emitters write. A header of at
    least two cells and rows of at least as many cells, none holding a
    tab, a line feed or a carriage return, joined by tabs and line
    feeds, load as the table of those rows under that header. *)
Theorem parseTSV_round_trip (hs : list string) (rs : list (list string)) :
  (2 <= length hs)%nat -> forallb clean hs = true ->
  forallb (fun r => (length hs <=? length r)%nat && forallb clean r) rs = true ->
  parseTSV (join LF (join TAB hs :: map (join TAB) rs)) = Ok (reloaded hs rs).
Proof. apply parseTSV_join. Qed.

End EndToEnd.

(** ** On the samples *)

Import Terms Fixtures.

(** X24 on a sample. *)
Lemma parseTSV_round_trip_witness :
  parseTSV (join LF (join TAB ["A"; "B"] :: map (join TAB) [["1"; "2"; "3"]; ["4"; "5"]]))
  = Ok (reloaded ["A"; "B"] [["1"; "2"; "3"]; ["4"; "5"]]).
Proof.
  apply (parseTSV_round_trip ["A"; "B"] [["1"; "2"; "3"]; ["4"; "5"]]).
  - simpl. lia.
  - vm_compute. reflexivity.
  - vm_compute. reflexivity.
Defined.


(** X2 on a sample. *)
Lemma parseTSV_cells_free_witness :
  List.Forall (fun h => free_of 9 h = true /\ free_of 10 h = true) ["A"; "B"].
Proof.
  refine (proj1 (parseTSV_cells_free (join LF [join TAB ["A"; "B"]; join TAB ["1"; "2"]])
                   (Table ["A"; "B"] [list_to_map [("A", "1"); ("B", "2")]]) _)).
  vm_compute. reflexivity.
Defined.

(** X7 on a sample. *)
Lemma keyless_record_is_inert_witness :
  reconcile ([from0_jan] ++ keyless :: [from4_sep]) = reconcile ([from0_jan] ++ [from4_sep]).
Proof.
  apply (keyless_record_is_inert Date_parse_ymd keyless [from0_jan] [from4_sep]).
  vm_compute. reflexivity.
Defined.

(** X9 on a sample. *)
Lemma valid_has_columns_witness :
  List.Forall (fun k => is_Some (from0_jan !! k))
    ["SMA"; "Ecc"; "Inc"; "RAAN"; "ArgP"; "MeanAnom"; "Epoch"].
Proof.
  apply (valid_has_columns from0_jan). vm_compute. reflexivity.
Defined.

(** X10 on a sample. *)
Lemma object_table_reloads_witness :
  parseTSV (Convert.nodebOut Date_parse_ymd toUpperCase_ascii one_object)
  = Ok (reloaded headerOut
          (map (Convert.outCols toUpperCase_ascii)
               (JsMap.values (reconcile (rows one_object))))).
Proof.
  refine (proj1 (object_table_reloads Date_parse_ymd toUpperCase_ascii one_object _)).
  vm_compute. reflexivity.
Defined.

(** X11 on a sample. *)
Lemma descriptor_table_reloads_witness :
  parseTSV (Convert.dsOut toUpperCase_ascii one_descriptor)
  = Ok (Table ["Code"; "Name"]
          (map (fun '(id, name) => {[ "Code" := id; "Name" := name ]})
               (Convert.buildIdToName toUpperCase_ascii (rows one_descriptor)))).
Proof.
  apply (descriptor_table_reloads toUpperCase_ascii one_descriptor).
  vm_compute. reflexivity.
Defined.

(** X12 on a sample. *)
Lemma main_writes_two_files_witness :
  unresolved_out !! SRC_FILE = unresolved_fs !! SRC_FILE.
Proof.
  refine (proj1 (proj2 (main_writes_two_files Date_parse_ymd toUpperCase_ascii
                          unresolved_fs unresolved_out _))).
  vm_compute. reflexivity.
Defined.

(** X13 on a sample. *)
Lemma extractBacktick_sound_witness :
  free_of 96 "a" = true /\ trim "a" = "a".
Proof.
  refine (proj2 (extractBacktick_sound "x" padded_js "a" _)).
  vm_compute. reflexivity.
Defined.

(** X14 on a sample. *)
Lemma extractBacktick_reads_witness :
  extractBacktick "x" (("// data" ++ LF) ++ ("var " ++ "x" ++ " = `") ++ " a " ++ "`" ++ ";")
  = Ok (trim " a ").
Proof.
  apply (extractBacktick_reads "x" ("// data" ++ LF) " a " ";"); vm_compute; reflexivity.
Defined.

(** X15 on a sample. *)
Lemma mapOrbitType_classes_witness :
  Convert.mapOrbitType toUpperCase_ascii (" " ++ "g" ++ LF) = Convert.mapOrbitType toUpperCase_ascii "g"
  /\ In (Convert.mapOrbitType toUpperCase_ascii "g") ["LEO"; "MEO"; "GEO"; "HEO"; ""].
Proof.
  apply (mapOrbitType_classes toUpperCase_ascii " " "g" LF); vm_compute; reflexivity.
Defined.

(** X16 on a sample. *)
Lemma padding_is_ignored_witness :
  norad_of (<["NoradId" := (" " ++ "25544" ++ " ")%string]> from0_jan)
  = norad_of (<["NoradId" := "25544"]> from0_jan).
Proof.
  refine (proj1 (padding_is_ignored from0_jan " " "25544" " " _ _)); vm_compute; reflexivity.
Defined.

(** X18 on a sample. *)
Lemma deg2rad_missing_witness :
  Celestrak.deg2rad (VStr "n/a") = 0%float
  /\ Celestrak.joinText (Celestrak.colValue (VNum (Celestrak.deg2rad (VStr "n/a")))) = "0".
Proof.
  apply (deg2rad_missing (VStr "n/a")). vm_compute. reflexivity.
Defined.

(** X19 on a sample. *)
Lemma row_columns_witness :
  split_tab (Celestrak.rowFromCelestrak cbrt_unused near_circular)
  = Celestrak.colTexts cbrt_unused near_circular.
Proof.
  refine (proj1 (row_columns cbrt_unused near_circular _)).
  vm_compute. reflexivity.
Defined.

(** X20 on a sample. *)
Lemma debrisUrl_plain_witness :
  CelestrakMain.debrisUrl "iridium-33-debris"
  = "https://celestrak.org/NORAD/elements/gp.php?GROUP=iridium-33-debris&FORMAT=json"
  /\ CelestrakMain.debrisUrl "cosmos-2251-debris"
     = "https://celestrak.org/NORAD/elements/gp.php?GROUP=cosmos-2251-debris&FORMAT=json".
Proof.
  split.
  - apply (debrisUrl_plain "iridium-33-debris"). vm_compute. reflexivity.
  - apply (debrisUrl_plain "cosmos-2251-debris"). vm_compute. reflexivity.
Defined.


(** The run of [fetch_celestrak] against a host that serves the active
    satellites only: a debris table of the header alone, and a warning
    for each of the two groups. *)
Example debris_groups_skipped :
  exists fs', CelestrakMain.main cbrt_unused only_active ∅
    = Ok (fs', ["[WARN] Skipping debris group iridium-33-debris: HTTP 404 for https://celestrak.org/NORAD/elements/gp.php?GROUP=iridium-33-debris&FORMAT=json";
                "[WARN] Skipping debris group cosmos-2251-debris: HTTP 404 for https://celestrak.org/NORAD/elements/gp.php?GROUP=cosmos-2251-debris&FORMAT=json"])
    /\ fs' !! CelestrakMain.DEB_FILE = Some Celestrak.HEADER.
Proof. eexists. split; vm_compute; reflexivity. Qed.
